(** * cpp-logger: a shallow embedding of [logger.h] / [logger.cpp]

    The logger is a small stateful library: a handful of process-wide
    globals (severity threshold, output handler, output [FILE*], two
    prefixes, the log file name), a per-thread pool of reference-counted
    message buffers and the [LoggerStream] handle whose destructor flushes
    the finished line.  The embedding keeps that shape: one [world] record
    for the globals, the heap of [Stream] objects behind [shared_ptr]s and
    the thread-local pools, and a small state monad whose outcomes are
    "returned", "the process was [abort()]ed" and "undefined behaviour". *)

From Stdlib Require Import ZArith Ascii String DecimalString.
From stdpp Require Import gmap strings list.

Local Open Scope string_scope.

(** ** Text *)

Module Text.

Definition NUL : ascii := Ascii.zero.

(** [std::string::c_str()] read back as a C string, and any
    [const char *] argument: the characters before the first NUL. *)
Fixpoint c_str (s : string) : string :=
  match s with
  | EmptyString => EmptyString
  | String c r => if Ascii.eqb c NUL then EmptyString else String c (c_str r)
  end.

(** The text has no NUL character in it. *)
Fixpoint nul_free (s : string) : bool :=
  match s with
  | EmptyString => true
  | String c r => negb (Ascii.eqb c NUL) && nul_free r
  end.

(** The first [n] characters of [s]. *)
Fixpoint truncate (n : nat) (s : string) : string :=
  match n, s with
  | S m, String c r => String c (truncate m r)
  | _, _ => EmptyString
  end.

(** [std::string::empty()] *)
Definition empty (s : string) : bool :=
  match s with EmptyString => true | _ => false end.

Definition of_char (c : ascii) : string := String c EmptyString.

(** The double-quote character, as a one-character text. *)
Definition DQUOTE : string := of_char "034"%char.

Fixpoint repeat_char (c : ascii) (n : nat) : string :=
  match n with
  | O => EmptyString
  | S m => String c (repeat_char c m)
  end.

End Text.

(** ** The severity levels *)

(** [enum Level { Debug, Info, Warning, Error, Fatal }] *)
Inductive Level := Debug | Info | Warning | Error | Fatal.

Global Instance Level_eq_dec : EqDecision Level.
Proof. solve_decision. Defined.

(** The enumerator values, in declaration order. *)
Definition Level_value (l : Level) : Z :=
  match l with
  | Debug => 0
  | Info => 1
  | Warning => 2
  | Error => 3
  | Fatal => 4
  end.

(** [a >= b] on the enumeration. *)
Definition Level_ge (a b : Level) : bool := (Level_value b <=? Level_value a)%Z.

(** [static char logLevelToChar(LoggerStream::Level level)].  The
    [default:] branch of the switch is unreachable for a value of the
    enumeration. *)
Definition logLevelToChar (level : Level) : ascii :=
  match level with
  | Debug => "D"
  | Info => "I"
  | Warning => "W"
  | Error | Fatal => "E"
  end%char.

(** ** Objects *)

(** [struct LoggerStream::Stream] *)
Module Stream.

Record t := mk {
  str : string;
  level : Level;
  space : bool;
  quote : bool
}.

Definition set_str (v : string) (s : t) : t := mk v (level s) (space s) (quote s).
Definition set_level (v : Level) (s : t) : t := mk (str s) v (space s) (quote s).
Definition set_space (v : bool) (s : t) : t := mk (str s) (level s) v (quote s).
Definition set_quote (v : bool) (s : t) : t := mk (str s) (level s) (space s) v.

(** [stream->str += s] *)
Definition append (v : string) (s : t) : t := set_str (str s +:+ v) s.

(** What [std::make_shared<Stream>()] builds: the members value-initialised. *)
Definition fresh : t := mk EmptyString Debug false false.

End Stream.

(** A [Stream] on the heap together with the [use_count] of the
    [shared_ptr] control block that owns it. *)
Record shared := mkShared {
  obj : Stream.t;
  use_count : nat
}.

Definition loc := nat.
Definition tid := nat.

(** [FILE *]: the standard error stream or a handle returned by [fopen],
    tagged with the path it was opened on.  A null pointer is [None] of
    [option FILE]. *)
Inductive FILE :=
  | stderr
  | fhandle (fd : nat) (path : string).

Global Instance FILE_eq_dec : EqDecision FILE.
Proof. solve_decision. Defined.

(** [LoggerStream::OutputHandler] is a function pointer; the handler is a
    black box identified by its address, and calling it is an observable
    event. *)
Definition OutputHandler := nat.

(** What the process does to the outside. *)
Inductive event :=
  | EvHandler (h : OutputHandler) (l : Level) (s : string)
  | EvWrite (f : FILE) (s : string)
  | EvFlush (f : FILE)
  | EvOpen (f : FILE)
  | EvClose (f : FILE)
  | EvAbort.

Global Instance event_eq_dec : EqDecision event.
Proof. solve_decision. Defined.

(** [struct tm] as filled by [localtime_r], with [tv_usec] of the
    [timeval] it was taken from. *)
Record clock := mkClock {
  tm_mday : Z;
  tm_mon : Z;
  tm_year : Z;
  tm_hour : Z;
  tm_min : Z;
  tm_sec : Z;
  tv_usec : Z
}.

(** ** The state of the process *)

Record world := mkWorld {
  (* the file-scope statics of logger.cpp *)
  outputHandler : option OutputHandler;
  severityLevel : Level;
  outputStream : option FILE;
  messagePrefix : string;
  applicationPrefix : string;
  logFileName : string;
  (* the heap of Stream objects and [thread_local ... LoggerStream::pool] *)
  heap : gmap loc shared;
  pool : gmap tid (list loc);
  (* the environment: what gettimeofday/localtime_r and getpid answer,
     whether fopen(path, "a") fails (with the strerror text of the errno it
     sets), the next descriptor fopen hands out, strerror(errno), and the
     events so far *)
  now : clock;
  pid : Z;
  fopen_error : string -> option string;
  next_fd : nat;
  errno : string;
  trace : list event
}.

(** The state a process starts in: no handler, threshold [Debug], output
    on [stderr], empty prefixes and file name, nothing allocated. *)
Definition world_init (c : clock) (p : Z) (fs : string -> option string) : world :=
  {| outputHandler := None; severityLevel := Debug; outputStream := Some stderr;
     messagePrefix := EmptyString; applicationPrefix := EmptyString; logFileName := EmptyString;
     heap := ∅; pool := ∅;
     now := c; pid := p; fopen_error := fs; next_fd := 3; errno := "Success";
     trace := [] |}.

Definition set_outputHandler (h : option OutputHandler) (w : world) : world :=
  mkWorld h (severityLevel w) (outputStream w) (messagePrefix w)
    (applicationPrefix w) (logFileName w) (heap w) (pool w)
    (now w) (pid w) (fopen_error w) (next_fd w) (errno w) (trace w).

Definition set_severityLevel (l : Level) (w : world) : world :=
  mkWorld (outputHandler w) l (outputStream w) (messagePrefix w)
    (applicationPrefix w) (logFileName w) (heap w) (pool w)
    (now w) (pid w) (fopen_error w) (next_fd w) (errno w) (trace w).

Definition set_outputStream (f : option FILE) (w : world) : world :=
  mkWorld (outputHandler w) (severityLevel w) f (messagePrefix w)
    (applicationPrefix w) (logFileName w) (heap w) (pool w)
    (now w) (pid w) (fopen_error w) (next_fd w) (errno w) (trace w).

Definition set_messagePrefix (s : string) (w : world) : world :=
  mkWorld (outputHandler w) (severityLevel w) (outputStream w) s
    (applicationPrefix w) (logFileName w) (heap w) (pool w)
    (now w) (pid w) (fopen_error w) (next_fd w) (errno w) (trace w).

Definition set_applicationPrefix (s : string) (w : world) : world :=
  mkWorld (outputHandler w) (severityLevel w) (outputStream w) (messagePrefix w)
    s (logFileName w) (heap w) (pool w)
    (now w) (pid w) (fopen_error w) (next_fd w) (errno w) (trace w).

Definition set_logFileName (s : string) (w : world) : world :=
  mkWorld (outputHandler w) (severityLevel w) (outputStream w) (messagePrefix w)
    (applicationPrefix w) s (heap w) (pool w)
    (now w) (pid w) (fopen_error w) (next_fd w) (errno w) (trace w).

Definition set_heap (h : gmap loc shared) (w : world) : world :=
  mkWorld (outputHandler w) (severityLevel w) (outputStream w) (messagePrefix w)
    (applicationPrefix w) (logFileName w) h (pool w)
    (now w) (pid w) (fopen_error w) (next_fd w) (errno w) (trace w).

Definition set_pool (p : gmap tid (list loc)) (w : world) : world :=
  mkWorld (outputHandler w) (severityLevel w) (outputStream w) (messagePrefix w)
    (applicationPrefix w) (logFileName w) (heap w) p
    (now w) (pid w) (fopen_error w) (next_fd w) (errno w) (trace w).

Definition set_next_fd (n : nat) (w : world) : world :=
  mkWorld (outputHandler w) (severityLevel w) (outputStream w) (messagePrefix w)
    (applicationPrefix w) (logFileName w) (heap w) (pool w)
    (now w) (pid w) (fopen_error w) n (errno w) (trace w).

Definition set_errno (e : string) (w : world) : world :=
  mkWorld (outputHandler w) (severityLevel w) (outputStream w) (messagePrefix w)
    (applicationPrefix w) (logFileName w) (heap w) (pool w)
    (now w) (pid w) (fopen_error w) (next_fd w) e (trace w).

(** Append events to the trace. *)
Definition emit (es : list event) (w : world) : world :=
  mkWorld (outputHandler w) (severityLevel w) (outputStream w) (messagePrefix w)
    (applicationPrefix w) (logFileName w) (heap w) (pool w)
    (now w) (pid w) (fopen_error w) (next_fd w) (errno w) (trace w ++ es)%list.

(** The pool of thread [t]; a thread that never released a buffer has an
    empty one. *)
Definition pool_of (w : world) (t : tid) : list loc := default [] (pool w !! t).

(** ** The monad of library calls *)

Inductive result (A : Type) :=
  | Done (a : A) (w : world)      (* the call returned *)
  | Aborted (w : world)           (* abort() was called; [w] is the state then *)
  | Undefined.                    (* undefined behaviour *)
Arguments Done {A} a w.
Arguments Aborted {A} w.
Arguments Undefined {A}.

Definition M (A : Type) : Type := world -> result A.

Definition ret {A} (a : A) : M A := fun w => Done a w.

Definition bind {A B} (m : M A) (k : A -> M B) : M B :=
  fun w =>
    match m w with
    | Done a w' => k a w'
    | Aborted w' => Aborted w'
    | Undefined => Undefined
    end.

Definition get {A} (f : world -> A) : M A := fun w => Done (f w) w.
Definition modify (f : world -> world) : M unit := fun w => Done tt (f w).
Definition undefined {A} : M A := fun _ => Undefined.

(** stdpp's monad notations: [x ← m; k] and [m;; k]. *)
Global Instance M_ret : MRet M := @ret.
Global Instance M_bind : MBind M := fun A B k m => bind m k.

(** The world a call leaves behind, whether it returned or aborted. *)
Definition final_world {A} (r : result A) : option world :=
  match r with
  | Done _ w => Some w
  | Aborted w => Some w
  | Undefined => None
  end.

(** ** The C library calls the logger makes *)

Module Libc.

(** The newline character. *)
Definition LF : string := String "010"%char EmptyString.

(** [int] is 32 bits wide: [INT_MIN] and [INT_MAX]. *)
Definition INT_MIN : Z := -2147483648.
Definition INT_MAX : Z := 2147483647.

(** The value of an integer once it is held in an [int]: conversion to
    [int] and [int] arithmetic wrap around modulo 2^32. *)
Definition to_int (z : Z) : Z := ((z - INT_MIN) mod 4294967296 + INT_MIN)%Z.

(** [a + b] on [int]s. *)
Definition int_add (a b : Z) : Z := to_int (a + b).

(** [a / b] on [int]s, which truncates towards zero. *)
Definition int_div (a b : Z) : Z := to_int (Z.quot a b).

(** The decimal digits of [|z|]. *)
Definition digits (z : Z) : string :=
  NilZero.string_of_uint (N.to_uint (Z.abs_N z)).

(** [%0<width>d] applied to [z]; [width = 0] is plain [%d].  The sign comes
    first and zeros fill up to the minimum field width. *)
Definition fmt_d (width : nat) (z : Z) : string :=
  let sign := if (z <? 0)%Z then "-" else EmptyString in
  let ds := digits z in
  sign +:+ Text.repeat_char "0" (width - String.length sign - String.length ds) +:+ ds.

(** One item of a format string, paired with the argument it consumes. *)
Inductive conv :=
  | Lit (s : string)             (* literal text *)
  | PctS (s : string)            (* %s, a const char* *)
  | PctD (width : nat) (z : Z)   (* %d and %0<width>d, an int *)
  | PctC (c : ascii).            (* %c *)

Definition render1 (c : conv) : string :=
  match c with
  | Lit s => s
  | PctS s => Text.c_str s
  | PctD width z => fmt_d width z
  | PctC c => Text.of_char c
  end.

(** The complete output of a [printf]-family call. *)
Fixpoint render (cs : list conv) : string :=
  match cs with
  | [] => EmptyString
  | c :: cs' => render1 c +:+ render cs'
  end.

(** [snprintf(buf, size, fmt, ...)]: the C string left in [buf], at most
    [size - 1] characters of the complete output (the terminator takes the
    last of the [size] bytes); nothing is written for [size = 0]. *)
Definition snprintf (size : nat) (cs : list conv) : string :=
  Text.truncate (size - 1) (render cs).

(** [buf[i] = 0] on a buffer holding the C string [s]. *)
Definition terminate_at (i : nat) (s : string) : string := Text.truncate i s.

(** [fprintf(stream, fmt, ...)] *)
Definition fprintf (stream : option FILE) (cs : list conv) : M unit :=
  match stream with
  | Some f => modify (emit [EvWrite f (render cs)])
  | None => undefined
  end.

(** [fflush(stream)] *)
Definition fflush (stream : option FILE) : M unit :=
  match stream with
  | Some f => modify (emit [EvFlush f])
  | None => undefined
  end.

(** [fopen(path, "a")]: a null pointer with [errno] set, or a new handle. *)
Definition fopen (path : string) : M (option FILE) :=
  fs ← get fopen_error;
  match fs path with
  | Some e => modify (set_errno e);; mret None
  | None =>
      fd ← get next_fd;
      modify (set_next_fd (S fd));;
      modify (emit [EvOpen (fhandle fd path)]);;
      mret (Some (fhandle fd path))
  end.

(** [fclose(stream)] *)
Definition fclose (stream : option FILE) : M unit :=
  match stream with
  | Some f => modify (emit [EvClose f])
  | None => undefined
  end.

(** [abort()] does not return. *)
Definition abort {A} : M A := fun w => Aborted (emit [EvAbort] w).

(** [std::atomic_exchange(&outputStream, f)] *)
Definition exchange_outputStream (f : option FILE) : M (option FILE) :=
  previous ← get outputStream;
  modify (set_outputStream f);;
  mret previous.

End Libc.

(** ** Dispatch *)

(** [static void logHandler(LoggerStream::Level level, const char *s)] *)
Definition logHandler (level : Level) (s : string) : M unit :=
  handler ← get outputHandler;
  match handler with
  | Some h => modify (emit [EvHandler h level (Text.c_str s)])
  | None =>
      stream ← get outputStream;
      Libc.fprintf stream [Libc.PctS s; Libc.Lit Libc.LF];;
      Libc.fflush stream
  end;;
  if decide (level = Fatal) then Libc.abort else mret tt.

(** ** [class LoggerStream] *)

Module LoggerStream.

(** A handle is its one data member, [std::shared_ptr<Stream> stream]:
    null, or the address of a [Stream] whose control block counts it. *)
Definition t := option loc.

(** *** Shared pointers *)

(** [*stream] *)
Definition deref (l : loc) : M shared :=
  h ← get heap;
  match h !! l with
  | Some c => mret c
  | None => undefined
  end.

Definition store (l : loc) (c : shared) : M unit :=
  modify (fun w => set_heap (<[l := c]> (heap w)) w).

(** [stream->field = v] and [stream->str += s] *)
Definition update (l : loc) (f : Stream.t -> Stream.t) : M unit :=
  c ← deref l;
  store l (mkShared (f (obj c)) (use_count c)).

(** [std::make_shared<Stream>()] *)
Definition make_shared : M loc :=
  h ← get heap;
  let l := fresh (dom h) in
  store l (mkShared Stream.fresh 1);;
  mret l.

(** [stream.use_count()]: 0 for a null pointer. *)
Definition use_count_of (stream : t) : M nat :=
  match stream with
  | None => mret 0
  | Some l => c ← deref l; mret (use_count c)
  end.

(** [stream.unique()] *)
Definition unique (stream : t) : M bool :=
  n ← use_count_of stream;
  mret (Nat.eqb n 1).

(** The destructor of a [shared_ptr]: a null one does nothing, another
    gives up its share, and the last share deletes the object. *)
Definition release (stream : t) : M unit :=
  match stream with
  | None => mret tt
  | Some l =>
      c ← deref l;
      match use_count c with
      | 0 => undefined
      | 1 => modify (fun w => set_heap (delete l (heap w)) w)
      | S n => store l (mkShared (obj c) n)
      end
  end.

(** *** The thread-local pool *)

(** [std::shared_ptr<Stream> LoggerStream::getFromPool()], called on
    thread [th]. *)
Definition getFromPool (th : tid) : M loc :=
  p ← get (fun w => pool_of w th);
  match last p with
  | None => make_shared
  | Some stream =>
      modify (fun w => set_pool (<[th := removelast p]> (pool w)) w);;
      mret stream
  end.

(** [void LoggerStream::pushToPool(std::shared_ptr<Stream> stream)] *)
Definition pushToPool (th : tid) (stream : loc) : M unit :=
  modify (fun w => set_pool (<[th := (pool_of w th ++ [stream])%list]> (pool w)) w).

(** *** Construction *)

(** The arguments of the [snprintf] call of the constructor.  The fields
    of [struct tm] are [int]s, so [tm.tm_mon + 1] and [tm.tm_year + 1900]
    are [int] additions, and [(int)tv.tv_usec / 1000] converts to [int]
    before the [int] division. *)
Definition header_format (app : string) (tm : clock) (level : Level) (p : Z)
    (msg : string) : list Libc.conv :=
  [ Libc.PctS app;
    Libc.PctD 2 (tm_mday tm); Libc.Lit ".";
    Libc.PctD 2 (Libc.int_add (tm_mon tm) 1); Libc.Lit ".";
    Libc.PctD 0 (Libc.int_add (tm_year tm) 1900); Libc.Lit " ";
    Libc.PctD 2 (tm_hour tm); Libc.Lit ":";
    Libc.PctD 2 (tm_min tm); Libc.Lit ":";
    Libc.PctD 2 (tm_sec tm); Libc.Lit ".";
    Libc.PctD 3 (Libc.int_div (Libc.to_int (tv_usec tm)) 1000); Libc.Lit " ";
    Libc.PctC (logLevelToChar level); Libc.Lit " [";
    Libc.PctD 0 p; Libc.Lit "] ";
    Libc.PctS msg; Libc.Lit ": " ].

(** [sizeof(header)] for [char header[128]] *)
Definition sizeof_header : nat := 128.

(** The C string in [header] when the constructor appends it. *)
Definition header (app : string) (tm : clock) (level : Level) (p : Z)
    (msg : string) : string :=
  let header := Libc.snprintf (sizeof_header - 1) (header_format app tm level p msg) in
  (* ensure last char is null terminator *)
  Libc.terminate_at (sizeof_header - 1) header.

(** [LoggerStream::LoggerStream(Level level)], run on thread [th]. *)
Definition ctor (th : tid) (level : Level) : M t :=
  currentSeverityLevel ← get severityLevel;
  if Level_ge level currentSeverityLevel then
    stream ← getFromPool th;
    update stream (Stream.set_str EmptyString);;
    update stream (Stream.set_level level);;
    update stream (Stream.set_space true);;
    update stream (Stream.set_quote false);;
    tm ← get now;
    app ← get applicationPrefix;
    msg ← get messagePrefix;
    p ← get pid;
    update stream (Stream.append (Text.c_str (header app tm level p msg)));;
    mret (Some stream)
  else
    mret None.

(** [LoggerStream(const LoggerStream &) = default]: the copy shares the
    buffer and counts as one more owner. *)
Definition copy (h : t) : M t :=
  match h with
  | None => mret None
  | Some l =>
      c ← deref l;
      store l (mkShared (obj c) (S (use_count c)));;
      mret (Some l)
  end.

(** The copy assignment [a = b], which the class leaves to the compiler
    (it declares the copy constructor and the destructor only): the
    member is assigned, [shared_ptr(b.stream).swap(a.stream)], so that [b]'s
    buffer gets one more owner and [a] gives up its share of the buffer it
    had.  The result is the handle [a] holds afterwards. *)
Definition assign (a b : t) : M t :=
  copy b;;
  release a;;
  mret b.

(** [LoggerStream::~LoggerStream()], run on thread [th].  After
    [pushToPool(std::move(stream))] the member is null and its own
    destructor does nothing; otherwise the member gives up its share. *)
Definition dtor (th : tid) (h : t) : M unit :=
  u ← unique h;
  if (u : bool) return M unit then
    match h with
    | Some l =>
        c ← deref l;
        logHandler (Stream.level (obj c)) (Stream.str (obj c));;
        pushToPool th l
    | None => undefined
    end
  else
    release h.

(** *** Configuration *)

(** [void LoggerStream::setOutputHandler(OutputHandler handler)] *)
Definition setOutputHandler (handler : option OutputHandler) : M unit :=
  modify (set_outputHandler handler).

(** [void LoggerStream::setSeverityLevel(Level level)] *)
Definition setSeverityLevel (level : Level) : M unit :=
  modify (set_severityLevel level).

(** [void LoggerStream::setSeverityLevel(const std::string &level)] *)
Definition setSeverityLevel_name (level : string) : M unit :=
  let severity := Info in
  let severity :=
    if String.eqb level "debug" then Debug
    else if String.eqb level "info" then Info
    else if String.eqb level "warning" then Warning
    else if String.eqb level "error" then Error
    else severity in
  setSeverityLevel severity.

(** [void LoggerStream::setApplicationPrefix(std::string prefix)] *)
Definition setApplicationPrefix (prefix : string) : M unit :=
  let prefix := if negb (Text.empty prefix) then prefix +:+ " " else prefix in
  modify (set_applicationPrefix prefix).

(** [void LoggerStream::setMessagePrefix(std::string prefix)] *)
Definition setMessagePrefix (prefix : string) : M unit :=
  modify (set_messagePrefix prefix).

(** [void LoggerStream::rotateFile()] *)
Definition rotateFile : M unit :=
  fileName ← get logFileName;
  if negb (Text.empty fileName) then
    newFile ← Libc.fopen (Text.c_str fileName);
    match newFile with
    | None =>
        name ← get logFileName;
        let message := "cannot open log file '" +:+ name +:+ "'" in
        e ← get errno;
        Libc.fprintf (Some stderr)
          [Libc.PctS message; Libc.Lit ": "; Libc.PctS e; Libc.Lit Libc.LF]
    | Some _ =>
        previousFile ← Libc.exchange_outputStream newFile;
        match previousFile with
        | Some f => if decide (f ≠ stderr) then Libc.fclose previousFile else mret tt
        | None => mret tt
        end
    end
  else
    mret tt.

(** [void LoggerStream::setLogFileName(std::string fileName)] *)
Definition setLogFileName (fileName : string) : M unit :=
  modify (set_logFileName fileName);;
  rotateFile.

(** *** Building the message *)

(** [template<typename T> void LoggerStream::addLogMessage(const T &s)],
    with [s] the text that [stream->str += s] appends. *)
Definition addLogMessage (h : t) (s : string) : M unit :=
  match h with
  | None => undefined   (* assert(stream) *)
  | Some l =>
      c ← deref l;
      (if Stream.space (obj c) then update l (Stream.append " ") else mret tt);;
      c ← deref l;
      (if Stream.quote (obj c) then update l (Stream.append Text.DQUOTE) else mret tt);;
      update l (Stream.append s);;
      c ← deref l;
      (if Stream.quote (obj c) then update l (Stream.append Text.DQUOTE) else mret tt)
  end.

(** [LoggerStream &LoggerStream::space()]; the calls return [*this], here
    the handle they were given. *)
Definition space (h : t) : M t :=
  match h with
  | Some l => update l (Stream.set_space true)
  | None => mret tt
  end;;
  mret h.

(** [LoggerStream &LoggerStream::nospace()] *)
Definition nospace (h : t) : M t :=
  match h with
  | Some l => update l (Stream.set_space false)
  | None => mret tt
  end;;
  mret h.

(** [LoggerStream &LoggerStream::quote()] *)
Definition quote (h : t) : M t :=
  match h with
  | Some l => update l (Stream.set_quote true)
  | None => mret tt
  end;;
  mret h.

(** [LoggerStream &LoggerStream::noquote()] *)
Definition noquote (h : t) : M t :=
  match h with
  | Some l => update l (Stream.set_quote false)
  | None => mret tt
  end;;
  mret h.

(** [operator << (const char *s)] and [operator << (char *s)]: the
    characters up to the terminator are appended. *)
Definition shl_cstr (h : t) (s : string) : M t :=
  match h with
  | Some _ => addLogMessage h (Text.c_str s)
  | None => mret tt
  end;;
  mret h.

(** [operator << (const std::string &s)] *)
Definition shl_string (h : t) (s : string) : M t :=
  match h with
  | Some _ => addLogMessage h s
  | None => mret tt
  end;;
  mret h.

(** [operator << (char c)] *)
Definition shl_char (h : t) (c : ascii) : M t :=
  match h with
  | Some _ => addLogMessage h (Text.of_char c)
  | None => mret tt
  end;;
  mret h.

(** [template<typename T> operator << (const T &t)], with the
    [std::to_string] overload for [T]. *)
Definition shl {T : Type} (to_string : T -> string) (h : t) (x : T) : M t :=
  match h with
  | Some _ => addLogMessage h (to_string x)
  | None => mret tt
  end;;
  mret h.

End LoggerStream.

(** [std::to_string(int)] *)
Definition to_string_int (z : Z) : string := Libc.fmt_d 0 z.

(** ** The entry points *)

(** [LoggerStream logDebug()] and its siblings, called on thread [th]. *)
Definition logDebug (th : tid) : M LoggerStream.t := LoggerStream.ctor th Debug.
Definition logInfo (th : tid) : M LoggerStream.t := LoggerStream.ctor th Info.
Definition logWarning (th : tid) : M LoggerStream.t := LoggerStream.ctor th Warning.
Definition logError (th : tid) : M LoggerStream.t := LoggerStream.ctor th Error.
Definition logFatal (th : tid) : M LoggerStream.t := LoggerStream.ctor th Fatal.

(** [CloseStream::~CloseStream()], run when the process exits. *)
Definition closeStream_dtor : M unit :=
  stream ← Libc.exchange_outputStream (Some stderr);
  if decide (stream ≠ Some stderr) then Libc.fclose stream else mret tt.

(** ** Vocabulary of the specification *)

(** *** The header layout, in the words of the specification

    [<appPrefix><DD>.<MM>.<YYYY> <HH>:<MM>:<SS>.<mmm> <LevelChar> [<pid>] <messagePrefix>: ] *)

Module Layout.

(** The character of a decimal digit [0..9]. *)
Definition digit (d : Z) : ascii := ascii_of_nat (48 + Z.to_nat d).

(** Exactly two decimal digits. *)
Definition two_digits (n : Z) : string :=
  String (digit (n / 10)) (String (digit (n mod 10)) EmptyString).

(** Exactly three decimal digits. *)
Definition three_digits (n : Z) : string :=
  String (digit (n / 100)) (two_digits (n mod 100)).

(** Exactly four decimal digits. *)
Definition four_digits (n : Z) : string :=
  String (digit (n / 1000)) (three_digits (n mod 1000)).

(** A number in decimal, as the standard library prints it. *)
Definition decimal (z : Z) : string := NilZero.string_of_int (Z.to_int z).

(** Debug→'D', Info→'I', Warning→'W', Error→'E', Fatal→'E' *)
Definition LevelChar : list (Level * ascii) :=
  [ (Debug, "D"); (Info, "I"); (Warning, "W"); (Error, "E"); (Fatal, "E") ]%char.

Definition level_char (l : Level) : string :=
  match List.find (fun p => bool_decide (fst p = l)) LevelChar with
  | Some p => Text.of_char (snd p)
  | None => EmptyString
  end.

Definition header (app : string) (tm : clock) (l : Level) (p : Z) (msg : string) : string :=
  app +:+
  two_digits (tm_mday tm) +:+ "." +:+ two_digits (tm_mon tm + 1) +:+ "." +:+
  decimal (tm_year tm + 1900) +:+ " " +:+
  two_digits (tm_hour tm) +:+ ":" +:+ two_digits (tm_min tm) +:+ ":" +:+
  two_digits (tm_sec tm) +:+ "." +:+ three_digits (tv_usec tm / 1000) +:+ " " +:+
  level_char l +:+ " [" +:+ decimal p +:+ "] " +:+ msg +:+ ": ".

End Layout.

(** The ranges POSIX gives the fields of a [struct tm] and [tv_usec], and
    a [tm_year] that is an [int] to which 1900 can be added as an [int]. *)
Definition tm_valid (tm : clock) : bool :=
  bool_decide (1 ≤ tm_mday tm ≤ 31)%Z && bool_decide (0 ≤ tm_mon tm ≤ 11)%Z &&
  bool_decide (0 ≤ tm_hour tm ≤ 23)%Z && bool_decide (0 ≤ tm_min tm ≤ 59)%Z &&
  bool_decide (0 ≤ tm_sec tm ≤ 60)%Z && bool_decide (0 ≤ tv_usec tm ≤ 999999)%Z &&
  bool_decide (Libc.INT_MIN ≤ tm_year tm ≤ Libc.INT_MAX - 1900)%Z.

(** *** Buffers, handles and dispatches *)

(** Every buffer in the pool of thread [th] is alive and owned by that
    pool slot alone. *)
Definition pool_ok (w : world) (th : tid) : bool :=
  forallb (fun l => bool_decide (use_count <$> heap w !! l = Some 1)) (pool_of w th).

(** The buffer at [l], when it is alive. *)
Definition buffer (w : world) (l : loc) : option Stream.t := obj <$> heap w !! l.

(** The number of handles and pool slots that share the buffer at [l]. *)
Definition owners (w : world) (l : loc) : option nat := use_count <$> heap w !! l.

(** A dispatch is a call of the output handler or a write to a file. *)
Definition is_dispatch (e : event) : bool :=
  match e with
  | EvHandler _ _ _ | EvWrite _ _ => true
  | _ => false
  end.

Definition dispatches (es : list event) : nat := length (filter is_dispatch es).

(** The events of dispatching the text [s] at [level] in [w]: the handler
    is called, or the line is written to the file target and flushed.
    There are none to name when no handler is installed and the file
    target is null. *)
Definition dispatch_line (w : world) (level : Level) (s : string)
    : option (list event) :=
  match outputHandler w, outputStream w with
  | Some h, _ => Some [EvHandler h level (Text.c_str s)]
  | None, Some f => Some [EvWrite f (Text.c_str s +:+ Libc.LF); EvFlush f]
  | None, None => None
  end.

(** The world with the buffer at [l] replaced. *)
Definition with_buffer (l : loc) (s : Stream.t) (n : nat) (w : world) : world :=
  set_heap (<[l := mkShared s n]> (heap w)) w.

(** The world with [l] pushed on the back of the pool of [th]. *)
Definition with_pooled (th : tid) (l : loc) (w : world) : world :=
  set_pool (<[th := (pool_of w th ++ [l])%list]> (pool w)) w.

(** One token, decorated by the flags of the buffer it goes to. *)
Definition decorated (s : Stream.t) (token : string) : string :=
  (if Stream.space s then " " else EmptyString) +:+
  (if Stream.quote s then Text.DQUOTE else EmptyString) +:+
  token +:+
  (if Stream.quote s then Text.DQUOTE else EmptyString).

(** The buffer a new stream on thread [th] takes, and the world once it is
    taken: the back of the thread's pool, or a new allocation. *)
Definition acquired (w : world) (th : tid) : loc * world :=
  match last (pool_of w th) with
  | Some l => (l, set_pool (<[th := removelast (pool_of w th)]> (pool w)) w)
  | None => (fresh (dom (heap w)), w)
  end.

(** The ownership invariant of the pools: every pooled buffer is alive
    with its pool slot as only owner, and it sits in one slot of one pool. *)
Definition pools_ok (w : world) : Prop :=
  (∀ th, pool_ok w th = true) ∧
  (∀ th, NoDup (pool_of w th)) ∧
  (∀ th th' l, l ∈ pool_of w th → l ∈ pool_of w th' → th = th').

(** The buffer at [l] is in no pool: it belongs to handles. *)
Definition unpooled (w : world) (l : loc) : Prop := ∀ th, l ∉ pool_of w th.

(** *** Chains of stream calls *)

(** One call in a chain [logInfo().quote() << "a" << 10 ...]. *)
Inductive call :=
  | Space | NoSpace | Quote | NoQuote
  | PutCStr (s : string)      (* << const char* *)
  | PutString (s : string)    (* << std::string *)
  | PutChar (c : ascii)       (* << char *)
  | PutInt (z : Z).           (* << int, through std::to_string *)

Definition run_call (h : LoggerStream.t) (c : call) : M LoggerStream.t :=
  match c with
  | Space => LoggerStream.space h
  | NoSpace => LoggerStream.nospace h
  | Quote => LoggerStream.quote h
  | NoQuote => LoggerStream.noquote h
  | PutCStr s => LoggerStream.shl_cstr h s
  | PutString s => LoggerStream.shl_string h s
  | PutChar c => LoggerStream.shl_char h c
  | PutInt z => LoggerStream.shl to_string_int h z
  end.

Fixpoint run_chain (h : LoggerStream.t) (cs : list call) : M LoggerStream.t :=
  match cs with
  | [] => mret h
  | c :: cs' => h' ← run_call h c; run_chain h' cs'
  end.

(** The text of a token: strings verbatim, anything else converted. *)
Definition token_text (c : call) : option string :=
  match c with
  | PutCStr s => Some (Text.c_str s)
  | PutString s => Some s
  | PutChar c => Some (Text.of_char c)
  | PutInt z => Some (Layout.decimal z)
  | _ => None
  end.

(** What one call does to the buffer. *)
Definition apply_call (c : call) (s : Stream.t) : Stream.t :=
  match c with
  | Space => Stream.set_space true s
  | NoSpace => Stream.set_space false s
  | Quote => Stream.set_quote true s
  | NoQuote => Stream.set_quote false s
  | _ => Stream.append (decorated s (default EmptyString (token_text c))) s
  end.

(** What a chain appends, starting with the flags [sp] and [qt]: each
    token is decorated by the flags in force when it is appended. *)
Fixpoint chain_text (sp qt : bool) (cs : list call) : string :=
  match cs with
  | [] => EmptyString
  | Space :: cs' => chain_text true qt cs'
  | NoSpace :: cs' => chain_text false qt cs'
  | Quote :: cs' => chain_text sp true cs'
  | NoQuote :: cs' => chain_text sp false cs'
  | c :: cs' =>
      (if sp then " " else EmptyString) +:+
      (if qt then Text.DQUOTE else EmptyString) +:+
      default EmptyString (token_text c) +:+
      (if qt then Text.DQUOTE else EmptyString) +:+
      chain_text sp qt cs'
  end.

(** The flags a chain leaves behind. *)
Fixpoint chain_flags (sp qt : bool) (cs : list call) : bool * bool :=
  match cs with
  | [] => (sp, qt)
  | Space :: cs' => chain_flags true qt cs'
  | NoSpace :: cs' => chain_flags false qt cs'
  | Quote :: cs' => chain_flags sp true cs'
  | NoQuote :: cs' => chain_flags sp false cs'
  | _ :: cs' => chain_flags sp qt cs'
  end.

(** *** Lifetimes of handles *)

(** [n] further copies of the handle [h]. *)
Fixpoint copy_n (h : LoggerStream.t) (n : nat) : M unit :=
  match n with
  | 0 => mret tt
  | S k => LoggerStream.copy h;; copy_n h k
  end.

(** Handles of one buffer destroyed one after the other, the next on the
    next thread of [ths]. *)
Fixpoint destroy_each (h : LoggerStream.t) (ths : list tid) : M unit :=
  match ths with
  | [] => mret tt
  | th :: ths' => LoggerStream.dtor th h;; destroy_each h ths'
  end.

(** ** Sample states *)

Definition sample_clock : clock := mkClock 3 7 117 12 44 15 737123.

(** A file system on which one path cannot be opened. *)
Definition sample_fs (path : string) : option string :=
  if String.eqb path "/nonexistent/app.log" then Some "No such file or directory"
  else None.

Definition sample_world : world := world_init sample_clock 26629 sample_fs.

(** The state after one message was logged on thread 0 with
    [logInfo().quote().nospace() << "old"]: its buffer is back in the pool
    of thread 0, text and flags as the message left them. *)
Definition sample_recycled : world :=
  Eval vm_compute in
  default sample_world
    (final_world
       ((h ← logInfo 0;
         h ← LoggerStream.quote h;
         h ← LoggerStream.nospace h;
         h ← LoggerStream.shl_cstr h "old";
         LoggerStream.dtor 0 h) sample_world)).

(** The state after [setApplicationPrefix] was given 130 characters: the
    prefix stored is those and the space the call adds. *)
Definition sample_long : world :=
  Eval vm_compute in
  default sample_world
    (final_world
       (LoggerStream.setApplicationPrefix (Text.repeat_char "x" 130) sample_world)).

(** The tokens "a", "b", "c". *)
Definition abc : list call := [PutCStr "a"; PutCStr "b"; PutCStr "c"].

(** The state in which two streams are alive on thread 0: an [Info]
    stream holding the tokens "a", "b", "c" in buffer 0 and an [Error]
    stream, just created, in buffer 1. *)
Definition sample_two_streams : world :=
  Eval vm_compute in
  default sample_world
    (final_world
       ((a ← logInfo 0;
         a ← run_chain a abc;
         logError 0) sample_world)).

(** ** Whole messages and programs *)

Definition set_now (c : clock) (w : world) : world :=
  mkWorld (outputHandler w) (severityLevel w) (outputStream w) (messagePrefix w)
    (applicationPrefix w) (logFileName w) (heap w) (pool w)
    c (pid w) (fopen_error w) (next_fd w) (errno w) (trace w).

Definition set_fopen_error (fs : string -> option string) (w : world) : world :=
  mkWorld (outputHandler w) (severityLevel w) (outputStream w) (messagePrefix w)
    (applicationPrefix w) (logFileName w) (heap w) (pool w)
    (now w) (pid w) fs (next_fd w) (errno w) (trace w).

(** The buffer of a new stream of level [L] created in [w], before any
    token: the header, the level, space-separated and unquoted. *)
Definition seeded (w : world) (L : Level) : Stream.t :=
  Stream.mk (LoggerStream.header (applicationPrefix w) (now w) L (pid w) (messagePrefix w))
    L true false.

(** One logging statement [logX() << a << b ...;] on thread [th]: the
    stream is created, the chain runs, and the temporary is destroyed at
    the end of the statement. *)
Definition message (th : tid) (L : Level) (ks : list call) : M unit :=
  h ← LoggerStream.ctor th L;
  h ← run_chain h ks;
  LoggerStream.dtor th h.

(** Logging statements one after the other on one thread. *)
Fixpoint messages (th : tid) (ms : list (Level * list call)) : M unit :=
  match ms with
  | [] => mret tt
  | m :: ms' => message th m.1 m.2;; messages th ms'
  end.

(** The token of the call has no NUL character in it. *)
Definition call_nul_free (k : call) : bool :=
  match k with
  | PutString s => Text.nul_free s
  | PutChar c => negb (Ascii.eqb c Text.NUL)
  | _ => true
  end.

(** *** Files *)

(** The handles that are open after an event, given those open before. *)
Definition track_file (open : list FILE) (e : event) : list FILE :=
  match e with
  | EvOpen f => (open ++ [f])%list
  | EvClose f => filter (λ g, g ≠ f) open
  | _ => open
  end.

(** The handles [fopen] has returned and [fclose] has not been given. *)
Definition open_files (es : list event) : list FILE := foldl track_file [] es.

(** No event of [es] uses a file wrongly when [open] are the handles open
    at its start: writes and flushes go to [stderr] or to an open handle,
    and only an open handle is closed. *)
Fixpoint well_used (open : list FILE) (es : list event) : bool :=
  match es with
  | [] => true
  | e :: es' =>
      match e with
      | EvWrite f _ | EvFlush f => bool_decide (f = stderr ∨ f ∈ open)
      | EvClose f => bool_decide (f ∈ open)
      | _ => true
      end && well_used (track_file open e) es'
  end.

(** The state of the files is in order: the output target is [stderr] or
    the one handle that is open, descriptors not yet handed out are above
    it, and no file was ever used wrongly. *)
Definition files_ok (w : world) : Prop :=
  ∃ f, outputStream w = Some f ∧
    open_files (trace w) = (if decide (f = stderr) then [] else [f]) ∧
    (∀ fd path, f = fhandle fd path → fd < next_fd w) ∧
    well_used [] (trace w) = true.

(** What a program does with the logger, one call at a time.  Handles are
    the values the constructor and the copy returned earlier. *)
Inductive action :=
  | DoSetOutputHandler (h : option OutputHandler)
  | DoSetSeverityLevel (l : Level)
  | DoSetSeverityName (s : string)
  | DoSetApplicationPrefix (s : string)
  | DoSetMessagePrefix (s : string)
  | DoSetLogFileName (s : string)
  | DoRotateFile
  | DoNew (th : tid) (l : Level)
  | DoCopy (h : LoggerStream.t)
  | DoAssign (a b : LoggerStream.t)
  | DoCall (h : LoggerStream.t) (k : call)
  | DoDelete (th : tid) (h : LoggerStream.t)
  | DoCloseStream
  (* the environment moves on: the clock, the file system *)
  | EnvClock (c : clock)
  | EnvFiles (fs : string -> option string).

Definition run_action (a : action) : M unit :=
  match a with
  | DoSetOutputHandler h => LoggerStream.setOutputHandler h
  | DoSetSeverityLevel l => LoggerStream.setSeverityLevel l
  | DoSetSeverityName s => LoggerStream.setSeverityLevel_name s
  | DoSetApplicationPrefix s => LoggerStream.setApplicationPrefix s
  | DoSetMessagePrefix s => LoggerStream.setMessagePrefix s
  | DoSetLogFileName s => LoggerStream.setLogFileName s
  | DoRotateFile => LoggerStream.rotateFile
  | DoNew th l => LoggerStream.ctor th l;; mret tt
  | DoCopy h => LoggerStream.copy h;; mret tt
  | DoAssign a b => LoggerStream.assign a b;; mret tt
  | DoCall h k => run_call h k;; mret tt
  | DoDelete th h => LoggerStream.dtor th h
  | DoCloseStream => closeStream_dtor
  | EnvClock c => modify (set_now c)
  | EnvFiles fs => modify (set_fopen_error fs)
  end.

Fixpoint run_actions (acts : list action) : M unit :=
  match acts with
  | [] => mret tt
  | a :: acts' => run_action a;; run_actions acts'
  end.

(** The call [m] keeps the invariant [I]: from a state where [I] holds it
    leaves a state where [I] holds, whether it returns or aborts. *)
Definition preserves (I : world → Prop) {A} (m : M A) : Prop :=
  ∀ w, I w →
    match m w with
    | Done _ w' => I w'
    | Aborted w' => I w'
    | Undefined => True
    end.

(** A state with an open log file as output target. *)
Definition sample_logging : world :=
  Eval vm_compute in
  default sample_world
    (final_world (LoggerStream.setLogFileName "/var/log/app.log" sample_world)).

(** * Proofs *)

Local Close Scope string_scope.

(** ** Text *)

Section text_facts.

Implicit Types s r : string.

Lemma str_app_nil_l s : EmptyString +:+ s = s.
Proof. reflexivity. Qed.

Lemma str_app_cons c s r : String c s +:+ r = String c (s +:+ r).
Proof. reflexivity. Qed.

Lemma str_length_app s r : String.length (s +:+ r) = String.length s + String.length r.
Proof. induction s as [|c s IH]; [done |]. rewrite str_app_cons. simpl. by rewrite IH. Qed.

Lemma str_app_nil_r s : s +:+ EmptyString = s.
Proof. induction s as [|c s IH]; [done |]. by rewrite str_app_cons, IH. Qed.

Lemma str_app_assoc s r u : (s +:+ r) +:+ u = s +:+ (r +:+ u).
Proof. induction s as [|c s IH]; [done |]. by rewrite !str_app_cons, IH. Qed.

Lemma truncate_length n s : String.length (Text.truncate n s) = n `min` String.length s.
Proof.
  revert s; induction n as [|n IH]; intros [|c s]; simpl; try done.
  by rewrite IH.
Qed.

Lemma truncate_all n s : String.length s ≤ n → Text.truncate n s = s.
Proof.
  revert s; induction n as [|n IH]; intros [|c s]; simpl; try done; try lia.
  intros H. rewrite IH; [done | lia].
Qed.

(** Truncation drops trailing content only. *)
Lemma truncate_prefix n s : ∃ rest, s = Text.truncate n s +:+ rest.
Proof.
  revert s; induction n as [|n IH]; intros [|c s]; simpl; eauto.
  destruct (IH s) as [rest Hrest]. exists rest. by rewrite str_app_cons, <- Hrest.
Qed.

Lemma truncate_truncate n m s : n ≤ m → Text.truncate m (Text.truncate n s) = Text.truncate n s.
Proof.
  intros H. apply truncate_all. rewrite truncate_length. lia.
Qed.

Lemma c_str_nul_free s : Text.nul_free s = true → Text.c_str s = s.
Proof.
  induction s as [|c s IH]; simpl; [done |].
  destruct (Ascii.eqb c Text.NUL); simpl; [done |].
  intros H. by rewrite IH.
Qed.

Lemma nul_free_c_str s : Text.nul_free (Text.c_str s) = true.
Proof.
  induction s as [|c s IH]; simpl; [done |].
  destruct (Ascii.eqb c Text.NUL) eqn:E; simpl; [done |].
  by rewrite E, IH.
Qed.

Lemma nul_free_app s r :
  Text.nul_free (s +:+ r) = Text.nul_free s && Text.nul_free r.
Proof.
  induction s as [|c s IH]; [done |].
  rewrite str_app_cons. simpl. rewrite IH. by rewrite andb_assoc.
Qed.

Lemma nul_free_truncate n s : Text.nul_free s = true → Text.nul_free (Text.truncate n s) = true.
Proof.
  revert s; induction n as [|n IH]; intros [|c s]; simpl; try done.
  intros [H1 H2]%andb_true_iff. rewrite H1. simpl. by apply IH.
Qed.

Lemma nul_free_repeat c n : Ascii.eqb c Text.NUL = false → Text.nul_free (Text.repeat_char c n) = true.
Proof. intros H. induction n as [|n IH]; simpl; [done |]. by rewrite H, IH. Qed.

End text_facts.

(** ** Decimal numbers *)

Section decimal_facts.

Lemma nul_free_string_of_uint u : Text.nul_free (NilEmpty.string_of_uint u) = true.
Proof. induction u; simpl; try done. Qed.

Lemma nul_free_digits z : Text.nul_free (Libc.digits z) = true.
Proof.
  unfold Libc.digits, NilZero.string_of_uint.
  destruct (N.to_uint (Z.abs_N z)) eqn:E; try done;
    rewrite <- E; apply nul_free_string_of_uint.
Qed.

Lemma nul_free_fmt_d width z : Text.nul_free (Libc.fmt_d width z) = true.
Proof.
  unfold Libc.fmt_d. rewrite !nul_free_app, nul_free_digits.
  rewrite nul_free_repeat by done. by destruct (z <? 0)%Z.
Qed.

(** [%d] prints what the standard library prints. *)
Lemma fmt_d_decimal z : Libc.fmt_d 0 z = Layout.decimal z.
Proof. by destruct z. Qed.

(** A property checked on every number of a range holds on the range. *)
Lemma range_check (P : Z → bool) (lo n : Z) :
  forallb P (seqZ lo n) = true → ∀ z, (lo ≤ z < lo + n)%Z → P z = true.
Proof.
  intros H z Hz. rewrite forallb_forall in H. apply H.
  apply list_elem_of_In, elem_of_seqZ. lia.
Qed.

(** [%02d] of a number below 100 is its two digits. *)
Lemma fmt_d_two_digits z :
  (0 ≤ z ≤ 99)%Z → Libc.fmt_d 2 z = Layout.two_digits z.
Proof.
  intros Hz.
  apply String.eqb_eq.
  apply (range_check (λ z, String.eqb (Libc.fmt_d 2 z) (Layout.two_digits z)) 0 100);
    [by vm_compute | lia].
Qed.

(** [%03d] of a number below 1000 is its three digits. *)
Lemma fmt_d_three_digits z :
  (0 ≤ z ≤ 999)%Z → Libc.fmt_d 3 z = Layout.three_digits z.
Proof.
  intros Hz.
  apply String.eqb_eq.
  apply (range_check (λ z, String.eqb (Libc.fmt_d 3 z) (Layout.three_digits z)) 0 1000);
    [by vm_compute | lia].
Qed.

(** A year from 1000 to 9999 prints as its four digits. *)
Lemma decimal_four_digits z :
  (1000 ≤ z ≤ 9999)%Z → Layout.decimal z = Layout.four_digits z.
Proof.
  intros Hz.
  apply String.eqb_eq.
  apply (range_check (λ z, String.eqb (Layout.decimal z) (Layout.four_digits z)) 1000 9000);
    [by vm_compute | lia].
Qed.

End decimal_facts.

(** ** The sample states *)

(** [sample_recycled] is the state the sample run ends in. *)
Lemma sample_recycled_reached :
  final_world
    ((h ← logInfo 0;
      h ← LoggerStream.quote h;
      h ← LoggerStream.nospace h;
      h ← LoggerStream.shl_cstr h "old";
      LoggerStream.dtor 0 h) sample_world)
  = Some sample_recycled.
Proof. vm_compute. reflexivity. Qed.

(** ** The state monad *)

Lemma emit_emit es es' w : emit es' (emit es w) = emit (es ++ es') w.
Proof. unfold emit; simpl. by rewrite app_assoc. Qed.

Lemma trace_emit es w : trace (emit es w) = trace w ++ es.
Proof. done. Qed.

(** Unfold one call of the library down to the state it computes. *)
Ltac run :=
  repeat progress
    (unfold mbind, mret, M_bind, M_ret, bind, ret, get, modify, undefined in *;
     simpl in *).

(** ** Configuration *)

(** C8. [setSeverityLevel(name)] maps exactly the names "debug", "info",
    "warning" and "error" (compared character by character, so case
    matters) to their levels; any other string, "bogus" and "fatal"
    included, sets the level to [Info].  The call always returns and does
    nothing but set the threshold. *)
Theorem setSeverityLevel_name_spec (w : world) :
  LoggerStream.setSeverityLevel_name "debug" w = Done tt (set_severityLevel Debug w) ∧
  LoggerStream.setSeverityLevel_name "info" w = Done tt (set_severityLevel Info w) ∧
  LoggerStream.setSeverityLevel_name "warning" w = Done tt (set_severityLevel Warning w) ∧
  LoggerStream.setSeverityLevel_name "error" w = Done tt (set_severityLevel Error w) ∧
  ∀ name : string,
    name ∉ ["debug"; "info"; "warning"; "error"]%string →
    LoggerStream.setSeverityLevel_name name w = Done tt (set_severityLevel Info w).
Proof.
  repeat split; try reflexivity.
  intros name Hname. unfold LoggerStream.setSeverityLevel_name.
  repeat match goal with
  | |- context [String.eqb name ?s] =>
      destruct (String.eqb_spec name s) as [->|_]; [exfalso; apply Hname; set_solver |]
  end.
  reflexivity.
Qed.

(** Names outside the table, a differently cased one among them. *)
Lemma setSeverityLevel_name_witness :
  let w := set_severityLevel Error (world_init (mkClock 3 7 117 12 44 15 737123) 26629 (λ _, None)) in
  LoggerStream.setSeverityLevel_name "bogus" w = Done tt (set_severityLevel Info w) ∧
  LoggerStream.setSeverityLevel_name "fatal" w = Done tt (set_severityLevel Info w) ∧
  LoggerStream.setSeverityLevel_name "Debug" w = Done tt (set_severityLevel Info w).
Proof.
  intros w.
  pose proof (setSeverityLevel_name_spec w) as (_ & _ & _ & _ & H).
  repeat split; apply H; by vm_compute.
Defined.

(** C9. [setApplicationPrefix] stores a non-empty text with one space
    appended and an empty text as the empty prefix; [setMessagePrefix]
    stores its text as it is. *)
Theorem setPrefix_spec (text : string) (w : world) :
  LoggerStream.setApplicationPrefix text w
    = Done tt (set_applicationPrefix
                 (if decide (text = EmptyString) then EmptyString else text +:+ " ") w) ∧
  LoggerStream.setMessagePrefix text w = Done tt (set_messagePrefix text w).
Proof.
  split; [| reflexivity].
  unfold LoggerStream.setApplicationPrefix. by destruct text.
Qed.

Example setApplicationPrefix_examples :
  applicationPrefix <$> final_world (LoggerStream.setApplicationPrefix "app" sample_long)
    = Some "app "%string ∧
  applicationPrefix <$> final_world (LoggerStream.setApplicationPrefix EmptyString sample_long)
    = Some EmptyString ∧
  messagePrefix <$> final_world (LoggerStream.setMessagePrefix "PREFIX" sample_world)
    = Some "PREFIX"%string.
Proof. by repeat split. Qed.

(** ** Dispatch and rotation *)

(** C6. Dispatching a line: with a handler installed the handler is called
    with the level and the text and nothing is written to a file; without
    one the text and a newline are written to the current file target,
    which is then flushed.  After that a [Fatal] dispatch aborts the
    process and does not return; any other level returns.  A null file
    target, which the library never installs, is undefined behaviour. *)
Theorem logHandler_spec (level : Level) (s : string) (w : world) :
  let outcome line :=
    logHandler level s w =
      if decide (level = Fatal) then Aborted (emit (line ++ [EvAbort]) w)
      else Done tt (emit line w) in
  match outputHandler w, outputStream w with
  | Some h, _ => outcome [EvHandler h level (Text.c_str s)]
  | None, Some f => outcome [EvWrite f (Text.c_str s +:+ Libc.LF); EvFlush f]
  | None, None => logHandler level s w = Undefined
  end.
Proof.
  unfold logHandler. run.
  destruct (outputHandler w) as [h|], (outputStream w) as [f|]; simpl;
    try done; destruct (decide (level = Fatal)); simpl;
    unfold Libc.abort; rewrite ?emit_emit; try done.
  all: by rewrite str_app_nil_r.
Qed.

(** A handler installed, none installed, and a [Fatal] line. *)
Example logHandler_examples :
  logHandler Error "disk full" (set_outputHandler (Some 7) sample_world)
    = Done tt (emit [EvHandler 7 Error "disk full"]
                 (set_outputHandler (Some 7) sample_world)) ∧
  logHandler Error "disk full" sample_world
    = Done tt (emit [EvWrite stderr ("disk full" +:+ Libc.LF); EvFlush stderr] sample_world) ∧
  logHandler Fatal "giving up" sample_world
    = Aborted (emit [EvWrite stderr ("giving up" +:+ Libc.LF); EvFlush stderr; EvAbort]
                 sample_world) ∧
  logHandler Fatal "giving up" (set_outputHandler (Some 7) sample_world)
    = Aborted (emit [EvHandler 7 Fatal "giving up"; EvAbort]
                 (set_outputHandler (Some 7) sample_world)).
Proof. by repeat split. Qed.

(** C7. [rotateFile()] with a configured (non-empty) file name opens the
    path for append.  When that fails, one diagnostic line goes to
    [stderr] and the output target stays what it was.  When it succeeds,
    the new handle becomes the output target in one exchange and the
    previous target is closed, unless it was [stderr] (or null). *)
Theorem rotateFile_spec (w : world) :
  logFileName w ≠ EmptyString →
  let path := Text.c_str (logFileName w) in
  ∃ w', LoggerStream.rotateFile w = Done tt w' ∧
    match fopen_error w path with
    | Some e =>
        outputStream w' = outputStream w ∧
        trace w' = trace w ++
          [EvWrite stderr
             (Text.c_str ("cannot open log file '" +:+ logFileName w +:+ "'")
              +:+ ": " +:+ Text.c_str e +:+ Libc.LF)]
    | None =>
        let f := fhandle (next_fd w) path in
        outputStream w' = Some f ∧
        trace w' = trace w ++ EvOpen f ::
          match outputStream w with
          | Some previous => if decide (previous = stderr) then [] else [EvClose previous]
          | None => []
          end
    end.
Proof.
  intros Hname path. unfold LoggerStream.rotateFile. run.
  destruct (logFileName w) as [|c name] eqn:Ename; [done |]. simpl.
  unfold Libc.fopen. run. fold path.
  destruct (fopen_error w path) as [e|]; simpl.
  - eexists; split; [reflexivity |]. simpl. split; [done |].
    rewrite Ename. by rewrite !str_app_nil_r.
  - destruct (outputStream w) as [previous|] eqn:Eout; simpl.
    + destruct previous as [|fd p]; simpl.
      * eexists; split; [reflexivity |]. done.
      * eexists; split; [reflexivity |]. simpl. split; [done |].
        by rewrite <- app_assoc.
    + eexists; split; [reflexivity |]. done.
Qed.

(** A rotation that fails and one that succeeds after an earlier success. *)
Lemma rotateFile_witness :
  let w1 := set_logFileName "/nonexistent/app.log" sample_world in
  let w2 := set_outputStream (Some (fhandle 3 "/var/log/old.log"))
              (set_logFileName "/var/log/app.log" sample_world) in
  (logFileName w1 ≠ EmptyString ∧
   ∃ w', LoggerStream.rotateFile w1 = Done tt w' ∧
     outputStream w' = Some stderr ∧
     trace w' = [EvWrite stderr
       ("cannot open log file '/nonexistent/app.log': No such file or directory"
        +:+ Libc.LF)]) ∧
  (logFileName w2 ≠ EmptyString ∧
   ∃ w', LoggerStream.rotateFile w2 = Done tt w' ∧
     outputStream w' = Some (fhandle 3 "/var/log/app.log") ∧
     trace w' = [EvOpen (fhandle 3 "/var/log/app.log");
                 EvClose (fhandle 3 "/var/log/old.log")]).
Proof.
  intros w1 w2. split; (split; [done |]).
  - exact (rotateFile_spec w1 ltac:(done)).
  - exact (rotateFile_spec w2 ltac:(done)).
Defined.

(** The rotation scenario: after [setLogFileName] succeeded, a later
    [setLogFileName] on a path that cannot be opened leaves a diagnostic on
    [stderr], and the next dispatch still goes to the first file. *)
Example rotation_scenario :
  final_world
    ((LoggerStream.setLogFileName "/var/log/app.log";;
      LoggerStream.setLogFileName "/nonexistent/app.log";;
      logHandler Info "line") sample_world)
  = Some
      (emit
         [EvOpen (fhandle 3 "/var/log/app.log");
          EvWrite stderr
            ("cannot open log file '/nonexistent/app.log': No such file or directory"
             +:+ Libc.LF);
          EvWrite (fhandle 3 "/var/log/app.log") ("line" +:+ Libc.LF);
          EvFlush (fhandle 3 "/var/log/app.log")]
         (set_errno "No such file or directory"
            (set_next_fd 4
               (set_outputStream (Some (fhandle 3 "/var/log/app.log"))
                  (set_logFileName "/nonexistent/app.log" sample_world))))).
Proof. reflexivity. Qed.

(** ** Buffers on the heap *)

Section heap_facts.

Implicit Types (w : world) (l : loc) (c : shared) (s : Stream.t).

Lemma deref_live w l c : heap w !! l = Some c → LoggerStream.deref l w = Done c w.
Proof. intros H. unfold LoggerStream.deref. run. by rewrite H. Qed.

Lemma deref_dangling w l : heap w !! l = None → LoggerStream.deref l w = Undefined.
Proof. intros H. unfold LoggerStream.deref. run. by rewrite H. Qed.

Lemma update_live w l c f :
  heap w !! l = Some c →
  LoggerStream.update l f w = Done tt (with_buffer l (f (obj c)) (use_count c) w).
Proof.
  intros H. unfold LoggerStream.update. run.
  by rewrite (deref_live _ _ _ H).
Qed.

Lemma heap_with_buffer w l s n :
  heap (with_buffer l s n w) !! l = Some (mkShared s n).
Proof. unfold with_buffer. simpl. apply lookup_insert_eq. Qed.

Lemma heap_with_buffer_ne w l l' s n :
  l ≠ l' → heap (with_buffer l s n w) !! l' = heap w !! l'.
Proof. intros H. unfold with_buffer. simpl. by apply lookup_insert_ne. Qed.

Lemma with_buffer_twice w l s n s' n' :
  with_buffer l s' n' (with_buffer l s n w) = with_buffer l s' n' w.
Proof. unfold with_buffer, set_heap. simpl. by rewrite insert_insert_eq. Qed.

Lemma with_buffer_id w l c :
  heap w !! l = Some c → with_buffer l (obj c) (use_count c) w = w.
Proof.
  intros H. unfold with_buffer, set_heap. destruct c as [s n]. simpl.
  rewrite insert_id by done. by destruct w.
Qed.

Lemma buffer_with_buffer w l s n : buffer (with_buffer l s n w) l = Some s.
Proof. unfold buffer. by rewrite heap_with_buffer. Qed.

Lemma append_append s a b :
  Stream.append b (Stream.append a s) = Stream.append (a +:+ b) s.
Proof. unfold Stream.append, Stream.set_str. simpl. by rewrite str_app_assoc. Qed.

Lemma append_empty s : Stream.append EmptyString s = s.
Proof. unfold Stream.append, Stream.set_str. rewrite str_app_nil_r. by destruct s. Qed.

Lemma addLogMessage_live w l c token :
  heap w !! l = Some c →
  LoggerStream.addLogMessage (Some l) token w
    = Done tt (with_buffer l (Stream.append (decorated (obj c) token) (obj c)) (use_count c) w).
Proof.
  intros H. destruct c as [[text lv sp qt] n].
  unfold LoggerStream.addLogMessage, decorated. run.
  rewrite (deref_live _ _ _ H). simpl.
  destruct sp, qt; simpl;
    repeat first
      [ rewrite (update_live _ _ _ _ H); simpl
      | erewrite update_live by apply heap_with_buffer; simpl
      | erewrite deref_live by apply heap_with_buffer; simpl
      | rewrite (deref_live _ _ _ H); simpl
      | rewrite with_buffer_twice
      | rewrite append_append ];
    try (rewrite ?str_app_nil_l, ?str_app_nil_r, ?str_app_assoc; reflexivity).
Qed.

End heap_facts.

(** ** Chains of calls on an active stream *)

#[local] Arguments LoggerStream.addLogMessage : simpl never.
#[local] Arguments LoggerStream.update : simpl never.
#[local] Arguments LoggerStream.deref : simpl never.
#[local] Arguments logHandler : simpl never.

Section chain_facts.

Implicit Types (w : world) (l : loc) (c : shared) (s : Stream.t).

Lemma run_call_live w l c k :
  heap w !! l = Some c →
  run_call (Some l) k w = Done (Some l) (with_buffer l (apply_call k (obj c)) (use_count c) w).
Proof.
  intros H.
  destruct k; simpl;
    unfold LoggerStream.space, LoggerStream.nospace, LoggerStream.quote,
      LoggerStream.noquote, LoggerStream.shl_cstr, LoggerStream.shl_string,
      LoggerStream.shl_char, LoggerStream.shl; run;
    rewrite ?(update_live _ _ _ _ H), ?(addLogMessage_live _ _ _ _ H); try done.
  unfold to_string_int. by rewrite fmt_d_decimal.
Qed.

Lemma run_chain_live w l c ks :
  heap w !! l = Some c →
  run_chain (Some l) ks w
    = Done (Some l) (with_buffer l (foldl (flip apply_call) (obj c) ks) (use_count c) w).
Proof.
  revert w c. induction ks as [|k ks IH]; intros w c H; simpl.
  - by rewrite with_buffer_id.
  - run. rewrite (run_call_live _ _ _ _ H).
    rewrite (IH _ (mkShared (apply_call k (obj c)) (use_count c))) by apply heap_with_buffer.
    simpl. by rewrite with_buffer_twice.
Qed.

Lemma chain_str s ks :
  Stream.str (foldl (flip apply_call) s ks)
    = Stream.str s +:+ chain_text (Stream.space s) (Stream.quote s) ks.
Proof.
  revert s. induction ks as [|k ks IH]; intros s; simpl.
  - by rewrite str_app_nil_r.
  - rewrite IH. destruct k; simpl; try done;
      unfold decorated; simpl; by rewrite !str_app_assoc.
Qed.

Lemma chain_flags_spec s ks :
  (Stream.space (foldl (flip apply_call) s ks), Stream.quote (foldl (flip apply_call) s ks))
    = chain_flags (Stream.space s) (Stream.quote s) ks.
Proof.
  revert s. induction ks as [|k ks IH]; intros s; simpl; [done |].
  rewrite IH. by destruct k.
Qed.

Lemma chain_level s ks :
  Stream.level (foldl (flip apply_call) s ks) = Stream.level s.
Proof.
  revert s. induction ks as [|k ks IH]; intros s; simpl; [done |].
  rewrite IH. by destruct k.
Qed.

End chain_facts.

(** ** The header *)

Section header_facts.

Implicit Types (app msg : string) (tm : clock) (L : Level) (p : Z).

Lemma level_char_spec L : Text.of_char (logLevelToChar L) = Layout.level_char L.
Proof. by destruct L. Qed.

Lemma tm_valid_ranges tm :
  tm_valid tm = true →
  (1 ≤ tm_mday tm ≤ 31 ∧ 0 ≤ tm_mon tm ≤ 11 ∧ 0 ≤ tm_hour tm ≤ 23 ∧
   0 ≤ tm_min tm ≤ 59 ∧ 0 ≤ tm_sec tm ≤ 60 ∧ 0 ≤ tv_usec tm ≤ 999999 ∧
   Libc.INT_MIN ≤ tm_year tm ≤ Libc.INT_MAX - 1900)%Z.
Proof.
  unfold tm_valid. rewrite !andb_true_iff, !bool_decide_eq_true. tauto.
Qed.

(** A value in the range of [int] is held unchanged. *)
Lemma to_int_in_range (z : Z) :
  (Libc.INT_MIN ≤ z ≤ Libc.INT_MAX)%Z → Libc.to_int z = z.
Proof.
  unfold Libc.to_int, Libc.INT_MIN, Libc.INT_MAX. intros Hz.
  rewrite Z.mod_small by lia. lia.
Qed.

(** An [int] is in the range of [int], whatever it was computed from. *)
Lemma to_int_range (z : Z) : (Libc.INT_MIN ≤ Libc.to_int z ≤ Libc.INT_MAX)%Z.
Proof.
  unfold Libc.to_int, Libc.INT_MIN, Libc.INT_MAX.
  pose proof (Z.mod_pos_bound (z - -2147483648) 4294967296). lia.
Qed.

(** The complete output of the [snprintf] call is the layout, with the
    prefixes read as C strings. *)
Lemma render_header_format app tm L p msg :
  tm_valid tm = true →
  Libc.render (LoggerStream.header_format app tm L p msg)
    = Layout.header (Text.c_str app) tm L p (Text.c_str msg).
Proof.
  intros Htm. apply tm_valid_ranges in Htm.
  assert (Hmon : Libc.int_add (tm_mon tm) 1 = (tm_mon tm + 1)%Z)
    by (apply to_int_in_range; unfold Libc.INT_MIN, Libc.INT_MAX; lia).
  assert (Hyear : Libc.int_add (tm_year tm) 1900 = (tm_year tm + 1900)%Z)
    by (apply to_int_in_range; unfold Libc.INT_MIN, Libc.INT_MAX in *; lia).
  assert (Hms : (0 ≤ tv_usec tm / 1000 ≤ 999)%Z)
    by (split; [apply Z.div_pos; lia | apply Z.lt_succ_r, Z.div_lt_upper_bound; lia]).
  assert (Hmsec : Libc.int_div (Libc.to_int (tv_usec tm)) 1000 = (tv_usec tm / 1000)%Z).
  { unfold Libc.int_div.
    rewrite (to_int_in_range (tv_usec tm)) by (unfold Libc.INT_MIN, Libc.INT_MAX; lia).
    rewrite Z.quot_div_nonneg by lia.
    apply to_int_in_range. unfold Libc.INT_MIN, Libc.INT_MAX. lia. }
  unfold LoggerStream.header_format, Layout.header.
  cbn [Libc.render Libc.render1]. rewrite Hmon, Hyear, Hmsec.
  rewrite !fmt_d_decimal, level_char_spec.
  rewrite !fmt_d_two_digits by lia.
  rewrite fmt_d_three_digits by done.
  by rewrite str_app_nil_r.
Qed.

Lemma render_header_nul_free app tm L p msg :
  Text.nul_free (Libc.render (LoggerStream.header_format app tm L p msg)) = true.
Proof.
  unfold LoggerStream.header_format. cbn [Libc.render Libc.render1].
  rewrite !nul_free_app, !nul_free_fmt_d, !nul_free_c_str.
  by destruct L.
Qed.

Lemma header_truncated app tm L p msg :
  LoggerStream.header app tm L p msg
    = Text.truncate 126 (Libc.render (LoggerStream.header_format app tm L p msg)).
Proof.
  unfold LoggerStream.header, Libc.snprintf, Libc.terminate_at.
  change (LoggerStream.sizeof_header - 1 - 1) with 126.
  change (LoggerStream.sizeof_header - 1) with 127.
  apply truncate_truncate. lia.
Qed.

Lemma header_nul_free app tm L p msg :
  Text.nul_free (LoggerStream.header app tm L p msg) = true.
Proof.
  rewrite header_truncated. apply nul_free_truncate, render_header_nul_free.
Qed.

Lemma header_length app tm L p msg :
  String.length (LoggerStream.header app tm L p msg) ≤ 126.
Proof. rewrite header_truncated, truncate_length. lia. Qed.

End header_facts.

(** ** Construction *)

#[local] Arguments LoggerStream.header : simpl never.
#[local] Arguments LoggerStream.getFromPool : simpl never.
#[local] Arguments LoggerStream.pushToPool : simpl never.
#[local] Arguments LoggerStream.release : simpl never.
#[local] Arguments Level_ge : simpl never.

Section ctor_facts.

Implicit Types (w : world) (l : loc) (c : shared) (s : Stream.t) (th : tid).

Lemma pool_ok_last w th l :
  pool_ok w th = true → last (pool_of w th) = Some l →
  ∃ s, heap w !! l = Some (mkShared s 1).
Proof.
  unfold pool_ok. rewrite forallb_forall. intros Hok Hlast.
  apply last_Some in Hlast as [p Hp].
  specialize (Hok l). rewrite Hp in Hok.
  rewrite bool_decide_eq_true in Hok.
  destruct (heap w !! l) as [[s n]|] eqn:E.
  - exists s. simpl in Hok. f_equal. f_equal.
    assert (Some n = Some 1) as [= ->]; [| done].
    apply Hok, in_elt.
  - exfalso. assert (@None nat = Some 1) as [=]. apply Hok, in_elt.
Qed.

(** Taking a buffer: the call returns the buffer [acquired] names, alive
    and with a single owner. *)
Lemma getFromPool_spec w th :
  pool_ok w th = true →
  ∃ w1 s, LoggerStream.getFromPool th w = Done (acquired w th).1 w1 ∧
    heap w1 !! (acquired w th).1 = Some (mkShared s 1) ∧
    (applicationPrefix w1 = applicationPrefix w ∧ messagePrefix w1 = messagePrefix w ∧
     now w1 = now w ∧ pid w1 = pid w) ∧
    ∀ s' n, with_buffer (acquired w th).1 s' n w1
              = with_buffer (acquired w th).1 s' n (acquired w th).2.
Proof.
  intros Hok. unfold LoggerStream.getFromPool, acquired. run.
  destruct (last (pool_of w th)) as [l|] eqn:Hlast; simpl.
  - destruct (pool_ok_last _ _ _ Hok Hlast) as [s Hs].
    eexists _, s. repeat split; done.
  - exists (with_buffer (fresh (dom (heap w))) Stream.fresh 1 w), Stream.fresh.
    repeat split.
    + apply heap_with_buffer.
    + intros s' n. apply with_buffer_twice.
Qed.

(** An active stream: the buffer taken is overwritten — text, level and
    both flags — and seeded with the header. *)
Lemma ctor_active w th L :
  pool_ok w th = true →
  Level_ge L (severityLevel w) = true →
  LoggerStream.ctor th L w
    = Done (Some (acquired w th).1)
        (with_buffer (acquired w th).1
           (Stream.mk (LoggerStream.header (applicationPrefix w) (now w) L (pid w)
                         (messagePrefix w)) L true false)
           1 (acquired w th).2).
Proof.
  intros Hok Hge. unfold LoggerStream.ctor. run. rewrite Hge.
  destruct (getFromPool_spec _ _ Hok) as (w1 & s & -> & Hs & (Ha & Hm & Hn & Hp) & Hw1).
  repeat first
    [ rewrite (update_live _ _ _ _ Hs); simpl
    | erewrite update_live by apply heap_with_buffer; simpl
    | rewrite with_buffer_twice ].
  rewrite Hw1.
  rewrite c_str_nul_free by apply header_nul_free.
  unfold Stream.append, Stream.set_str, Stream.set_level, Stream.set_space, Stream.set_quote.
  simpl. by rewrite Ha, Hm, Hn, Hp.
Qed.

(** A filtered stream: no buffer, and the world is left as it was. *)
Lemma ctor_inactive w th L :
  Level_ge L (severityLevel w) = false →
  LoggerStream.ctor th L w = Done None w.
Proof. intros Hge. unfold LoggerStream.ctor. run. by rewrite Hge. Qed.

End ctor_facts.

(** ** The severity filter *)

#[local] Arguments LoggerStream.ctor : simpl never.
#[local] Arguments LoggerStream.dtor : simpl never.
#[local] Arguments LoggerStream.copy : simpl never.


(** Every call of a chain leaves a handle without buffer, and the world,
    as they are. *)
Lemma run_call_disabled (k : call) (w : world) : run_call None k w = Done None w.
Proof. by destruct k. Qed.

Lemma run_chain_disabled (ks : list call) (w : world) : run_chain None ks w = Done None w.
Proof.
  induction ks as [|k ks IH]; [done |].
  simpl. run. by rewrite run_call_disabled.
Qed.



(** ** Recycled buffers *)

Lemma pool_of_set_pool (w : world) (th : tid) (p : list loc) :
  pool_of (set_pool (<[th := p]> (pool w)) w) th = p.
Proof. unfold pool_of. simpl. by rewrite lookup_insert_eq. Qed.

Lemma pool_of_with_buffer (w : world) (l : loc) (s : Stream.t) (n : nat) (th : tid) :
  pool_of (with_buffer l s n w) th = pool_of w th.
Proof. done. Qed.

(** C10. A new active stream overwrites the buffer it takes before
    anything is written to it: whatever text, level and flags the buffer
    had, it holds the header alone, the level of the stream, [space] set
    and [quote] cleared.  The buffer is the one at the back of the thread's
    pool, which is popped, or a new one when the pool is empty. *)
Theorem recycled_buffer_is_reset (th : tid) (L : Level) (w : world) :
  pool_ok w th = true →
  Level_ge L (severityLevel w) = true →
  ∃ l w',
    LoggerStream.ctor th L w = Done (Some l) w' ∧
    buffer w' l
      = Some (Stream.mk
                (LoggerStream.header (applicationPrefix w) (now w) L (pid w) (messagePrefix w))
                L true false) ∧
    (∀ p l0, pool_of w th = p ++ [l0] → l = l0 ∧ pool_of w' th = p) ∧
    (pool_of w th = [] → heap w !! l = None ∧ pool w' = pool w).
Proof.
  intros Hok Hge. eexists _, _. split; [by apply ctor_active |].
  split; [apply buffer_with_buffer |]. unfold acquired. split.
  - intros p l0 Hp. rewrite Hp, last_snoc, removelast_last. simpl.
    split; [done |]. rewrite pool_of_with_buffer. apply pool_of_set_pool.
  - intros Hp. rewrite Hp. simpl. split; [| done].
    apply not_elem_of_dom, is_fresh.
Qed.

(** The buffer left in the pool by [logInfo().quote().nospace() << "old"]
    is taken by the next message, an [Error], and holds nothing of the
    old one. *)
Lemma recycled_buffer_is_reset_witness :
  pool_ok sample_recycled 0 = true ∧
  Level_ge Error (severityLevel sample_recycled) = true ∧
  buffer sample_recycled 0
    = Some (Stream.mk ("03.08.2017 12:44:15.737 I [26629] : " +:+ Text.DQUOTE +:+ "old"
                       +:+ Text.DQUOTE) Info false true) ∧
  ∃ w', logError 0 sample_recycled = Done (Some 0) w' ∧
    buffer w' 0 = Some (Stream.mk "03.08.2017 12:44:15.737 E [26629] : " Error true false) ∧
    pool_of w' 0 = [].
Proof.
  destruct (recycled_buffer_is_reset 0 Error sample_recycled eq_refl eq_refl)
    as (l & w' & Hctor & Hbuf & Hpool & _).
  destruct (Hpool [] 0 eq_refl) as [-> Hp].
  repeat split; try done. exists w'. repeat split; done.
Defined.

(** ** Appending tokens *)

(** C5. On an active stream every appended token is decorated by the
    flags as they are when it is appended: a space before it when [space]
    is set, a double quote on each side when [quote] is set; a toggle
    changes the flag and no text, so it shows on later tokens only.  A new
    stream starts space-separated and unquoted, so after the header the
    tokens "a", "b", "c" give [ a b c], after [nospace()] they give [abc]
    and after [quote()] they give [ "a" "b" "c"]. *)
Theorem append_honours_flags :
  (* one token, under the flags in force *)
  (∀ sp qt token,
     chain_text sp qt [PutString token]
       = (if sp then " " else EmptyString)%string +:+
         (if qt then Text.DQUOTE else EmptyString) +:+ token +:+
         (if qt then Text.DQUOTE else EmptyString)) ∧
  (* any chain on a live buffer *)
  (∀ (w : world) (l : loc) (c : shared) (ks : list call),
     heap w !! l = Some c →
     ∃ s', run_chain (Some l) ks w = Done (Some l) (with_buffer l s' (use_count c) w) ∧
       Stream.str s'
         = Stream.str (obj c) +:+ chain_text (Stream.space (obj c)) (Stream.quote (obj c)) ks ∧
       (Stream.space s', Stream.quote s')
         = chain_flags (Stream.space (obj c)) (Stream.quote (obj c)) ks ∧
       Stream.level s' = Stream.level (obj c)) ∧
  (* any chain on a new stream *)
  (∀ (w : world) (th : tid) (L : Level) (ks : list call),
     pool_ok w th = true →
     Level_ge L (severityLevel w) = true →
     ∃ l w', (h ← LoggerStream.ctor th L; run_chain h ks) w = Done (Some l) w' ∧
       Stream.str <$> buffer w' l
         = Some (LoggerStream.header (applicationPrefix w) (now w) L (pid w) (messagePrefix w)
                 +:+ chain_text true false ks)) ∧
  (* the three chains of the specification, and a toggle in mid-chain *)
  chain_text true false abc = " a b c"%string ∧
  chain_text true false (NoSpace :: abc) = "abc"%string ∧
  chain_text true false (Quote :: abc)
    = (" " +:+ Text.DQUOTE +:+ "a" +:+ Text.DQUOTE +:+
       " " +:+ Text.DQUOTE +:+ "b" +:+ Text.DQUOTE +:+
       " " +:+ Text.DQUOTE +:+ "c" +:+ Text.DQUOTE)%string ∧
  chain_text true false [PutCStr "a"; NoSpace; PutCStr "b"; Quote; PutCStr "c"]
    = (" ab" +:+ Text.DQUOTE +:+ "c" +:+ Text.DQUOTE)%string.
Proof.
  split; [| split; [| split]]; [| | | by repeat split].
  - intros sp qt token. simpl. by rewrite str_app_nil_r.
  - intros w l c ks H. eexists. split; [by apply run_chain_live |].
    split; [apply chain_str |]. split; [apply chain_flags_spec | apply chain_level].
  - intros w th L ks Hok Hge. unfold mbind, M_bind, bind.
    rewrite ctor_active by done.
    erewrite run_chain_live by apply heap_with_buffer. simpl.
    eexists _, _. split; [reflexivity |].
    rewrite with_buffer_twice, buffer_with_buffer. simpl. by rewrite chain_str.
Qed.

(** The three usage lines of [logger.h], on a recycled buffer. *)
Lemma append_honours_flags_witness :
  pool_ok sample_recycled 0 = true ∧
  Level_ge Info (severityLevel sample_recycled) = true ∧
  (∃ l w', (h ← logInfo 0; run_chain h abc) sample_recycled = Done (Some l) w' ∧
     Stream.str <$> buffer w' l = Some "03.08.2017 12:44:15.737 I [26629] :  a b c"%string) ∧
  (∃ l w', (h ← logInfo 0; run_chain h (NoSpace :: abc)) sample_recycled = Done (Some l) w' ∧
     Stream.str <$> buffer w' l = Some "03.08.2017 12:44:15.737 I [26629] : abc"%string) ∧
  (∃ s', run_chain (Some 0) [PutInt 10; Space; PutChar "!"] sample_recycled
           = Done (Some 0) (with_buffer 0 s' 1 sample_recycled) ∧
     Stream.str s'
       = ("03.08.2017 12:44:15.737 I [26629] : " +:+ Text.DQUOTE +:+ "old" +:+ Text.DQUOTE
          +:+ Text.DQUOTE +:+ "10" +:+ Text.DQUOTE
          +:+ " " +:+ Text.DQUOTE +:+ "!" +:+ Text.DQUOTE)%string).
Proof.
  destruct append_honours_flags as (_ & Hlive & Hnew & _).
  split; [done |]. split; [done |]. split; [| split].
  - exact (Hnew sample_recycled 0 Info abc eq_refl eq_refl).
  - exact (Hnew sample_recycled 0 Info (NoSpace :: abc) eq_refl eq_refl).
  - destruct (Hlive sample_recycled 0 _ [PutInt 10; Space; PutChar "!"%char] eq_refl)
      as (s' & Hrun & Hstr & _).
    exists s'. split; [exact Hrun | exact Hstr].
Defined.

(** ** The header of a new stream *)

(** C3, as the code has it.  For a clock reading in the POSIX ranges,
    with a year that 1900 can be added to as an [int], the header seeded into the buffer of a new active stream is the first 126
    characters of the layout
    [<appPrefix><DD>.<MM>.<YYYY> <HH>:<MM>:<SS>.<mmm> <LevelChar> [<pid>] <messagePrefix>: ],
    the two prefixes read as C strings; it is that layout, character for
    character, whenever the layout is at most 126 characters long.
    [LevelChar] is D, I, W for Debug, Info, Warning and E for both Error
    and Fatal; the year is printed in decimal, four digits for the years
    1000 to 9999. *)
Theorem header_layout_spec (th : tid) (L : Level) (w : world) :
  pool_ok w th = true →
  Level_ge L (severityLevel w) = true →
  tm_valid (now w) = true →
  let layout :=
    Layout.header (Text.c_str (applicationPrefix w)) (now w) L (pid w)
      (Text.c_str (messagePrefix w)) in
  (∃ l w',
     LoggerStream.ctor th L w = Done (Some l) w' ∧
     Stream.str <$> buffer w' l = Some (Text.truncate 126 layout) ∧
     (String.length layout ≤ 126 → Stream.str <$> buffer w' l = Some layout)) ∧
  (Text.nul_free (applicationPrefix w) = true →
   Text.nul_free (messagePrefix w) = true →
   layout = Layout.header (applicationPrefix w) (now w) L (pid w) (messagePrefix w)) ∧
  ((1000 ≤ tm_year (now w) + 1900 ≤ 9999)%Z →
   Layout.decimal (tm_year (now w) + 1900) = Layout.four_digits (tm_year (now w) + 1900)) ∧
  (Layout.level_char Debug = "D" ∧ Layout.level_char Info = "I" ∧
   Layout.level_char Warning = "W" ∧ Layout.level_char Error = "E" ∧
   Layout.level_char Fatal = "E")%string.
Proof.
  intros Hok Hge Htm layout. split; [| split; [| split]].
  - eexists _, _. split; [by apply ctor_active |].
    rewrite buffer_with_buffer. simpl.
    rewrite header_truncated, render_header_format by done. fold layout.
    split; [done |]. intros Hlen. by rewrite truncate_all.
  - intros Ha Hm. unfold layout. by rewrite !c_str_nul_free.
  - apply decimal_four_digits.
  - done.
Qed.

(** The header of the usage example of [logger.h], and one cut short by a
    long application prefix. *)
Lemma header_layout_spec_witness :
  (pool_ok sample_world 0 = true ∧
   Level_ge Info (severityLevel sample_world) = true ∧
   tm_valid (now sample_world) = true ∧
   ∃ l w', logInfo 0 sample_world = Done (Some l) w' ∧
     Stream.str <$> buffer w' l = Some "03.08.2017 12:44:15.737 I [26629] : "%string) ∧
  (pool_ok sample_long 0 = true ∧
   Level_ge Fatal (severityLevel sample_long) = true ∧
   tm_valid (now sample_long) = true ∧
   ∃ l w', logFatal 0 sample_long = Done (Some l) w' ∧
     Stream.str <$> buffer w' l = Some (Text.repeat_char "x" 126)).
Proof.
  split; (split; [done |]; split; [done |]; split; [done |]).
  - destruct (header_layout_spec 0 Info sample_world eq_refl eq_refl eq_refl)
      as ((l & w' & Hctor & _ & Hstr) & _).
    exists l, w'. split; [exact Hctor |]. apply Hstr. vm_compute. lia.
  - destruct (header_layout_spec 0 Fatal sample_long eq_refl eq_refl eq_refl)
      as ((l & w' & Hctor & Hstr & _) & _).
    exists l, w'. split; [exact Hctor | exact Hstr].
Defined.

(** With an application prefix of 130 characters the header is not the
    layout: it is the first 126 characters of the prefix, and neither the
    time stamp nor the level appears in it. *)
Lemma header_layout_counterexample :
  pool_ok sample_long 0 = true ∧
  Level_ge Info (severityLevel sample_long) = true ∧
  tm_valid (now sample_long) = true ∧
  ∃ l w', logInfo 0 sample_long = Done (Some l) w' ∧
    Stream.str <$> buffer w' l = Some (Text.repeat_char "x" 126) ∧
    Stream.str <$> buffer w' l
      ≠ Some (Layout.header (applicationPrefix sample_long) (now sample_long) Info
                (pid sample_long) (messagePrefix sample_long)).
Proof.
  split; [done |]. split; [done |]. split; [done |].
  unfold logInfo. rewrite ctor_active by done.
  eexists _, _. split; [reflexivity |]. rewrite buffer_with_buffer. simpl.
  split; [by vm_compute |].
  intros H. apply (f_equal (fmap String.length)) in H. vm_compute in H. discriminate.
Qed.

(** C4. Whatever the prefixes, the header put together in the scratch
    array is at most 126 characters long — within the 127 characters and
    the terminator that [char header[128]] holds — and is the complete
    output of the format with its tail dropped, complete when that is
    short enough.  It has no NUL in it, so all of it is appended, and the
    constructor returns as for any other stream: nothing signals the
    truncation. *)
Theorem header_is_bounded (app msg : string) (tm : clock) (L : Level) (p : Z) :
  let header := LoggerStream.header app tm L p msg in
  let output := Libc.render (LoggerStream.header_format app tm L p msg) in
  String.length header ≤ 127 ∧
  String.length header ≤ 126 ∧
  String.length header + 1 ≤ LoggerStream.sizeof_header ∧
  (∃ dropped, output = header +:+ dropped) ∧
  (String.length output ≤ 126 → header = output) ∧
  Text.c_str header = header ∧
  ∀ w th,
    pool_ok w th = true →
    Level_ge L (severityLevel w) = true →
    applicationPrefix w = app → messagePrefix w = msg → now w = tm → pid w = p →
    ∃ l w', LoggerStream.ctor th L w = Done (Some l) w' ∧
      Stream.str <$> buffer w' l = Some header ∧
      trace w' = trace w.
Proof.
  intros header output.
  pose proof (header_length app tm L p msg) as Hlen. fold header in Hlen.
  split; [lia |]. split; [lia |]. split; [unfold LoggerStream.sizeof_header; lia |].
  assert (Hcut : header = Text.truncate 126 output) by apply header_truncated.
  split; [rewrite Hcut; apply truncate_prefix |].
  split; [intros H; by rewrite Hcut, truncate_all |].
  split; [apply c_str_nul_free, header_nul_free |].
  intros w th Hok Hge <- <- <- <-.
  eexists _, _. split; [by apply ctor_active |].
  rewrite buffer_with_buffer. split; [done |].
  unfold acquired. by destruct (last (pool_of w th)).
Qed.

(** A prefix of 130 characters and a message prefix: the header is cut to
    126 characters and the stream is created all the same. *)
Lemma header_is_bounded_witness :
  let w := set_messagePrefix "PREFIX" sample_long in
  pool_ok w 0 = true ∧ Level_ge Error (severityLevel w) = true ∧
  ∃ l w', logError 0 w = Done (Some l) w' ∧
    Stream.str <$> buffer w' l = Some (Text.repeat_char "x" 126) ∧
    trace w' = trace w.
Proof.
  intros w. split; [done |]. split; [done |].
  destruct (header_is_bounded (applicationPrefix w) (messagePrefix w) (now w) Error (pid w))
    as (_ & _ & _ & _ & _ & _ & H).
  exact (H w 0 eq_refl eq_refl eq_refl eq_refl eq_refl eq_refl).
Defined.

(** ** Copies and destruction *)

#[local] Arguments dispatch_line : simpl never.

Section lifetime_facts.

Implicit Types (w : world) (l : loc) (c : shared) (s : Stream.t) (th : tid).

Lemma logHandler_line w L (s : string) line :
  dispatch_line w L s = Some line →
  logHandler L s w =
    if decide (L = Fatal) then Aborted (emit (line ++ [EvAbort]) w)
    else Done tt (emit line w).
Proof.
  unfold dispatch_line, logHandler. run.
  destruct (outputHandler w) as [h|], (outputStream w) as [f|]; simpl;
    intros [= <-]; destruct (decide (L = Fatal)); simpl;
    unfold Libc.abort; rewrite ?emit_emit, ?str_app_nil_r; done.
Qed.

(** One dispatch is one call of the handler or one write. *)
Lemma dispatch_line_once w L (s : string) line :
  dispatch_line w L s = Some line → dispatches line = 1.
Proof.
  unfold dispatch_line.
  destruct (outputHandler w), (outputStream w); by intros [= <-].
Qed.

Lemma copy_live w l c :
  heap w !! l = Some c →
  LoggerStream.copy (Some l) w = Done (Some l) (with_buffer l (obj c) (S (use_count c)) w).
Proof.
  intros H. unfold LoggerStream.copy. run. by rewrite (deref_live _ _ _ H).
Qed.

Lemma copy_n_live w l c n :
  heap w !! l = Some c →
  copy_n (Some l) n w = Done tt (with_buffer l (obj c) (n + use_count c) w).
Proof.
  revert w c. induction n as [|n IH]; intros w c H; simpl.
  - by rewrite with_buffer_id.
  - run. rewrite (copy_live _ _ _ H).
    erewrite IH by apply heap_with_buffer. simpl.
    rewrite with_buffer_twice. do 2 f_equal. lia.
Qed.

(** Destroying a handle while others share the buffer: the share is given
    up, nothing else. *)
Lemma dtor_shared w l c th n :
  heap w !! l = Some c → use_count c = S (S n) →
  LoggerStream.dtor th (Some l) w = Done tt (with_buffer l (obj c) (S n) w).
Proof.
  intros H Hn. unfold LoggerStream.dtor, LoggerStream.unique, LoggerStream.release. run.
  rewrite (deref_live _ _ _ H). simpl. rewrite Hn. simpl.
  by rewrite (deref_live _ _ _ H), Hn.
Qed.

(** Destroying the last handle: the line is dispatched, and unless that
    aborts the process the buffer goes to the pool of the thread. *)
Lemma dtor_last w l c th line :
  heap w !! l = Some c → use_count c = 1 →
  dispatch_line w (Stream.level (obj c)) (Stream.str (obj c)) = Some line →
  LoggerStream.dtor th (Some l) w =
    if decide (Stream.level (obj c) = Fatal) then Aborted (emit (line ++ [EvAbort]) w)
    else Done tt (with_pooled th l (emit line w)).
Proof.
  intros H Hn Hline. unfold LoggerStream.dtor, LoggerStream.unique. run.
  rewrite (deref_live _ _ _ H). simpl. rewrite Hn. simpl.
  rewrite (deref_live _ _ _ H), (logHandler_line _ _ _ _ Hline).
  by destruct (decide (Stream.level (obj c) = Fatal)).
Qed.

Lemma destroy_each_shared w l c ths k :
  heap w !! l = Some c → use_count c = length ths + S k →
  destroy_each (Some l) ths w = Done tt (with_buffer l (obj c) (S k) w).
Proof.
  revert w c. induction ths as [|th ths IH]; intros w c H Hn; simpl.
  - simpl in Hn. rewrite <- Hn. by rewrite with_buffer_id.
  - run. rewrite (dtor_shared _ _ _ _ (length ths + k) H) by (simpl in Hn; lia).
    erewrite IH; [| apply heap_with_buffer | simpl; lia].
    simpl. by rewrite with_buffer_twice.
Qed.

End lifetime_facts.

Lemma pool_of_with_pooled (w : world) (th : tid) (l : loc) :
  pool_of (with_pooled th l w) th = pool_of w th ++ [l].
Proof. unfold with_pooled. apply pool_of_set_pool. Qed.

Lemma pool_of_with_pooled_ne (w : world) (th th' : tid) (l : loc) :
  th ≠ th' → pool_of (with_pooled th l w) th' = pool_of w th'.
Proof. intros H. unfold with_pooled, pool_of. simpl. by rewrite lookup_insert_ne. Qed.

(** C1, as the code has it.  A buffer taken for one message, whose
    handles are made by the constructor and the copy constructor and end
    by destruction alone — none of them is assigned over — is dispatched
    exactly once, by the destruction of the last handle that shares it.
    Destroying a handle while others share the buffer gives up one share:
    no event, no change to any pool.  Destroying the last one dispatches
    the line once; for every level but [Fatal] the buffer then goes to the
    back of the pool of the destroying thread, while a [Fatal] dispatch
    aborts the process, the destructor does not return and the buffer is
    not returned to any pool. *)
Theorem flush_once :
  (* a handle destroyed while others share the buffer *)
  (∀ (w : world) (l : loc) (c : shared) (th : tid) (n : nat),
     heap w !! l = Some c → use_count c = S (S n) →
     LoggerStream.dtor th (Some l) w = Done tt (with_buffer l (obj c) (S n) w) ∧
     trace (with_buffer l (obj c) (S n) w) = trace w ∧
     pool (with_buffer l (obj c) (S n) w) = pool w) ∧
  (* the last handle *)
  (∀ (w : world) (l : loc) (c : shared) (th : tid) (line : list event),
     heap w !! l = Some c → use_count c = 1 →
     dispatch_line w (Stream.level (obj c)) (Stream.str (obj c)) = Some line →
     dispatches line = 1 ∧
     LoggerStream.dtor th (Some l) w =
       (if decide (Stream.level (obj c) = Fatal)
        then Aborted (emit (line ++ [EvAbort]) w)
        else Done tt (with_pooled th l (emit line w))) ∧
     pool_of (with_pooled th l (emit line w)) th = pool_of w th ++ [l] ∧
     pool (emit (line ++ [EvAbort]) w) = pool w) ∧
  (* a whole life: a new stream, [n] copies, [n] handles destroyed on the
     threads [ths], the last one on [th'] *)
  (∀ (w : world) (th : tid) (L : Level) (ths : list tid) (th' : tid) (line : list event),
     pool_ok w th = true →
     Level_ge L (severityLevel w) = true →
     let l := (acquired w th).1 in
     let text := LoggerStream.header (applicationPrefix w) (now w) L (pid w) (messagePrefix w) in
     let w1 := with_buffer l (Stream.mk text L true false) 1 (acquired w th).2 in
     dispatch_line w L text = Some line →
     (h ← LoggerStream.ctor th L; copy_n h (length ths);; destroy_each h ths) w
       = Done tt w1 ∧
     trace w1 = trace w ∧
     dispatches line = 1 ∧
     (h ← LoggerStream.ctor th L; copy_n h (length ths);; destroy_each h ths;;
      LoggerStream.dtor th' h) w
       = (if decide (L = Fatal)
          then Aborted (emit (line ++ [EvAbort]) w1)
          else Done tt (with_pooled th' l (emit line w1)))).
Proof.
  split; [| split].
  - intros w l c th n H Hn. by rewrite (dtor_shared _ _ _ _ _ H Hn).
  - intros w l c th line H Hn Hline.
    split; [by eapply dispatch_line_once |].
    split; [by apply dtor_last |].
    split; [| done]. by rewrite pool_of_with_pooled.
  - intros w th L ths th' line Hok Hge l text w1 Hline.
    assert (Hlife :
      (h ← LoggerStream.ctor th L; copy_n h (length ths);; destroy_each h ths;; mret h) w
        = Done (Some l) w1).
    { unfold mbind, M_bind, bind, mret, M_ret, ret.
      rewrite ctor_active by done. fold l text w1.
      erewrite copy_n_live by apply heap_with_buffer. simpl.
      erewrite (destroy_each_shared _ _ _ _ 0); [| apply heap_with_buffer | simpl; lia].
      simpl. unfold w1. by rewrite !with_buffer_twice. }
    unfold mbind, M_bind, bind, mret, M_ret, ret in *.
    destruct (LoggerStream.ctor th L w) as [h w0| |]; [| done | done].
    destruct (copy_n h (length ths) w0) as [[] w0'| |]; [| done | done].
    destruct (destroy_each h ths w0') as [[] w0''| |]; [| done | done].
    injection Hlife as -> ->.
    split; [done |]. split; [unfold w1, acquired; by destruct (last (pool_of w th)) |].
    split; [by eapply dispatch_line_once |].
    rewrite (dtor_last w1 l (mkShared (Stream.mk text L true false) 1) th' line).
    + done.
    + apply heap_with_buffer.
    + done.
    + unfold dispatch_line in *. simpl. unfold w1, acquired.
      by destruct (last (pool_of w th)).
Qed.

(** A [Warning] on a recycled buffer, copied twice: the copies are
    destroyed on threads 1 and 2 without effect, the last handle on thread
    3 writes the line once and leaves the buffer in the pool of thread 3. *)
Lemma flush_once_witness :
  let w := sample_recycled in
  let text := "03.08.2017 12:44:15.737 W [26629] : "%string in
  let line := [EvWrite stderr (text +:+ Libc.LF); EvFlush stderr] in
  let w1 := with_buffer 0 (Stream.mk text Warning true false) 1 (acquired w 0).2 in
  (pool_ok w 0 = true ∧ Level_ge Warning (severityLevel w) = true ∧
   dispatch_line w Warning text = Some line) ∧
  (h ← logWarning 0; copy_n h 2;; destroy_each h [1; 2]) w = Done tt w1 ∧
  (h ← logWarning 0; copy_n h 2;; destroy_each h [1; 2];; LoggerStream.dtor 3 h) w
    = Done tt (with_pooled 3 0 (emit line w1)) ∧
  (heap (with_buffer 0 (Stream.mk text Warning true false) 2 w1) !! 0
     = Some (mkShared (Stream.mk text Warning true false) 2) ∧
   LoggerStream.dtor 1 (Some 0) (with_buffer 0 (Stream.mk text Warning true false) 2 w1)
     = Done tt (with_buffer 0 (Stream.mk text Warning true false) 1
                  (with_buffer 0 (Stream.mk text Warning true false) 2 w1))) ∧
  (heap w1 !! 0 = Some (mkShared (Stream.mk text Warning true false) 1) ∧
   LoggerStream.dtor 3 (Some 0) w1 = Done tt (with_pooled 3 0 (emit line w1)) ∧
   pool_of (with_pooled 3 0 (emit line w1)) 3 = [0] ∧ pool_of w1 0 = []).
Proof.
  intros w text line w1.
  destruct flush_once as (Hshared & Hlast & Hlife).
  destruct (Hlife w 0 Warning [1; 2] 3 line eq_refl eq_refl eq_refl) as (H1 & _ & _ & H2).
  destruct (Hshared (with_buffer 0 (Stream.mk text Warning true false) 2 w1) 0 _ 1 0
              eq_refl eq_refl) as (H3 & _).
  destruct (Hlast w1 0 _ 3 line eq_refl eq_refl eq_refl) as (_ & H4 & H5 & _).
  split; [repeat split; vm_compute; reflexivity |].
  split; [exact H1 |]. split; [exact H2 |].
  split; [split; [vm_compute; reflexivity | exact H3] |].
  split; [vm_compute; reflexivity |]. split; [exact H4 |].
  split; [exact H5 | vm_compute; reflexivity].
Defined.

(** Two buffers for which the claim fails.  A [Fatal] message: destroying
    its only handle dispatches the line and aborts; the destructor does
    not return and the buffer is in no pool.  And [a = logError()] on a
    stream [a] that holds tokens: the buffer of [a] is freed by the
    assignment, its text is never dispatched and it is returned to no
    pool; the only line dispatched is that of the second stream. *)
Lemma flush_once_counterexample :
  (pool_ok sample_world 0 = true ∧
   Level_ge Fatal (severityLevel sample_world) = true ∧
   ∃ l w1 w2,
     logFatal 0 sample_world = Done (Some l) w1 ∧
     owners w1 l = Some 1 ∧
     LoggerStream.dtor 0 (Some l) w1 = Aborted w2 ∧
     dispatches (trace w2) = 1 ∧
     (l ∉ pool_of w2 0) ∧
     ∀ w', LoggerStream.dtor 0 (Some l) w1 ≠ Done tt w') ∧
  (∃ w',
     (a ← logInfo 0;
      a ← run_chain a abc;
      tmp ← logError 0;
      a ← LoggerStream.assign a tmp;
      LoggerStream.dtor 0 tmp;;
      LoggerStream.dtor 0 a) sample_world = Done tt w' ∧
     buffer sample_two_streams 0
       = Some (Stream.mk "03.08.2017 12:44:15.737 I [26629] :  a b c" Info true false) ∧
     trace w' = [EvWrite stderr ("03.08.2017 12:44:15.737 E [26629] : " +:+ Libc.LF);
                 EvFlush stderr] ∧
     heap w' !! 0 = None ∧
     pool_of w' 0 = [1]).
Proof.
  split.
  - split; [done |]. split; [done |].
    eexists _, _, _. split; [reflexivity |]. split; [reflexivity |].
    split; [reflexivity |]. split; [reflexivity |]. split; [| done].
    intros H. by apply elem_of_nil in H.
  - eexists. split; [vm_compute; reflexivity |].
    repeat split; vm_compute; reflexivity.
Qed.

(** ** The ownership invariant

    A buffer is owned by one pool slot or by handles, never both: the
    calls of the library keep it that way, which is what [pool_ok] asks of
    the state a stream is created in. *)

Section ownership_facts.

Implicit Types (w : world) (l : loc) (c : shared) (s : Stream.t) (th : tid).

Lemma pool_ok_iff w th :
  pool_ok w th = true ↔ ∀ l, l ∈ pool_of w th → owners w l = Some 1.
Proof.
  unfold pool_ok, owners. rewrite forallb_forall. split.
  - intros H l Hl. eapply bool_decide_eq_true_1, H. by apply list_elem_of_In.
  - intros H l Hl. apply bool_decide_eq_true_2, H. by apply list_elem_of_In.
Qed.

Lemma pools_ok_init tm p fs : pools_ok (world_init tm p fs).
Proof.
  repeat split.
  - intros th. constructor.
  - intros th th' l H. by apply elem_of_nil in H.
Qed.

Lemma pool_of_emit es w th : pool_of (emit es w) th = pool_of w th.
Proof. done. Qed.

Lemma pools_ok_emit es w : pools_ok w → pools_ok (emit es w).
Proof. done. Qed.

(** Writing to a buffer that handles own leaves the pools in order. *)
Lemma pools_ok_with_buffer w l s n :
  pools_ok w → unpooled w l → pools_ok (with_buffer l s n w).
Proof.
  intros (Hok & Hnd & Hdisj) Hl. repeat split; [| done | done].
  intros th. apply pool_ok_iff. intros l' Hl'. rewrite pool_of_with_buffer in Hl'.
  unfold owners. rewrite heap_with_buffer_ne.
  - by apply (pool_ok_iff w th).
  - intros ->. by apply (Hl th).
Qed.

Lemma elem_of_pool_of_set_pool w th th' p l :
  l ∈ pool_of (set_pool (<[th := p]> (pool w)) w) th' ↔
  if decide (th = th') then l ∈ p else l ∈ pool_of w th'.
Proof.
  unfold pool_of. simpl. rewrite lookup_insert. by destruct (decide (th = th')).
Qed.

(** Returning a buffer with a single owner that is in no pool. *)
Lemma pools_ok_with_pooled w th l :
  pools_ok w → unpooled w l → owners w l = Some 1 → pools_ok (with_pooled th l w).
Proof.
  intros (Hok & Hnd & Hdisj) Hl Hown. unfold with_pooled. repeat split.
  - intros th'. apply pool_ok_iff. intros l' Hl'.
    apply elem_of_pool_of_set_pool in Hl'. unfold owners in *. simpl.
    destruct (decide (th = th')) as [<-|Hne].
    + apply elem_of_app in Hl' as [Hl'|Hl'].
      * by apply (pool_ok_iff w th).
      * apply list_elem_of_singleton in Hl'. by subst.
    + by apply (pool_ok_iff w th').
  - intros th'. unfold pool_of at 1. simpl. rewrite lookup_insert.
    destruct (decide (th = th')) as [<-|Hne]; simpl; [| apply Hnd].
    apply NoDup_app. split; [apply Hnd |]. split; [| apply NoDup_singleton].
    intros l' Hl' ->%list_elem_of_singleton. by apply (Hl th).
  - intros th1 th2 l' H1 H2.
    apply elem_of_pool_of_set_pool in H1, H2.
    destruct (decide (th = th1)) as [<-|Hne1], (decide (th = th2)) as [<-|Hne2]; try done.
    + apply elem_of_app in H1 as [H1|H1]; [by apply (Hdisj _ _ l') |].
      apply list_elem_of_singleton in H1. subst. by destruct (Hl th2).
    + apply elem_of_app in H2 as [H2|H2]; [by apply (Hdisj _ _ l') |].
      apply list_elem_of_singleton in H2. subst. by destruct (Hl th1).
    + by apply (Hdisj _ _ l').
Qed.

(** Taking a buffer for a new stream: the pools stay in order and the
    buffer is in none of them. *)
Lemma pools_ok_acquired w th s :
  pools_ok w →
  pools_ok (with_buffer (acquired w th).1 s 1 (acquired w th).2) ∧
  unpooled (with_buffer (acquired w th).1 s 1 (acquired w th).2) (acquired w th).1.
Proof.
  intros (Hok & Hnd & Hdisj). unfold acquired.
  destruct (last (pool_of w th)) as [l|] eqn:Hlast; simpl.
  - apply last_Some in Hlast as [p Hp]. rewrite Hp, removelast_last.
    pose proof (Hnd th) as Hnd'. rewrite Hp in Hnd'.
    apply NoDup_app in Hnd' as (Hndp & Hlp & _).
    assert (Hin : l ∈ pool_of w th) by (rewrite Hp; set_solver).
    assert (Hun : unpooled (set_pool (<[th:=p]> (pool w)) w) l).
    { intros th' Hl. apply elem_of_pool_of_set_pool in Hl.
      destruct (decide (th = th')) as [<-|Hne].
      - apply (Hlp l); set_solver.
      - by apply Hne, (Hdisj _ _ l). }
    split; [| done].
    apply pools_ok_with_buffer; [| done]. repeat split.
    + intros th'. apply pool_ok_iff. intros l' Hl'.
      apply elem_of_pool_of_set_pool in Hl'. unfold owners. simpl.
      destruct (decide (th = th')) as [<-|Hne].
      * apply (pool_ok_iff w th); [done |]. rewrite Hp. set_solver.
      * by apply (pool_ok_iff w th').
    + intros th'. unfold pool_of at 1. simpl. rewrite lookup_insert.
      destruct (decide (th = th')) as [<-|Hne]; simpl; [done | apply Hnd].
    + intros th1 th2 l' H1 H2. apply elem_of_pool_of_set_pool in H1, H2.
      apply (Hdisj _ _ l').
      * destruct (decide (th = th1)) as [<-|]; [rewrite Hp; set_solver | done].
      * destruct (decide (th = th2)) as [<-|]; [rewrite Hp; set_solver | done].
  - assert (Hun : unpooled w (fresh (dom (heap w)))).
    { intros th' Hl. apply (pool_ok_iff w th') in Hl; [| done].
      unfold owners in Hl.
      assert (heap w !! fresh (dom (heap w)) = None) as Hnone
        by apply not_elem_of_dom, is_fresh.
      by rewrite Hnone in Hl. }
    split; [| done]. by apply pools_ok_with_buffer.
Qed.

End ownership_facts.

(** The whole life of a message below [Fatal] — a new stream, a chain of
    calls, copies, and the destruction of every handle — returns and
    leaves the pools in order, ready for the next stream on any thread. *)
Lemma pools_ok_life (w : world) (th : tid) (L : Level) (ks : list call)
    (ths : list tid) (th' : tid) :
  pools_ok w →
  Level_ge L (severityLevel w) = true →
  L ≠ Fatal →
  (outputHandler w = None → outputStream w ≠ None) →
  ∃ w',
    (h ← LoggerStream.ctor th L;
     h ← run_chain h ks;
     copy_n h (length ths);;
     destroy_each h ths;;
     LoggerStream.dtor th' h) w = Done tt w' ∧
    pools_ok w' ∧
    dispatches (drop (length (trace w)) (trace w')) = 1 ∧
    last (pool_of w' th') = Some (acquired w th).1.
Proof.
  intros Hw Hge HL Hout.
  set (l := (acquired w th).1).
  set (s0 := Stream.mk (LoggerStream.header (applicationPrefix w) (now w) L (pid w)
                          (messagePrefix w)) L true false).
  set (s1 := foldl (flip apply_call) s0 ks).
  set (w2 := with_buffer l s1 1 (acquired w th).2).
  assert (Hs1 : Stream.level s1 = L) by apply chain_level.
  assert (Hglob : outputHandler w2 = outputHandler w ∧ outputStream w2 = outputStream w
                  ∧ trace w2 = trace w).
  { unfold w2, acquired. by destruct (last (pool_of w th)). }
  destruct Hglob as (Hh & Hf & Htr).
  assert (∃ line, dispatch_line w2 (Stream.level s1) (Stream.str s1) = Some line)
    as [line Hline].
  { unfold dispatch_line. rewrite Hh, Hf.
    destruct (outputHandler w); [by eauto |].
    destruct (outputStream w); [by eauto |]. by destruct Hout. }
  destruct (pools_ok_acquired w th s1 Hw) as [Hw2 Hl]. fold l w2 in Hw2, Hl.
  exists (with_pooled th' l (emit line w2)).
  split; [| split; [| split]].
  - destruct Hw as (Hok & _).
    unfold mbind, M_bind, bind.
    rewrite ctor_active by done. fold l s0.
    erewrite run_chain_live by apply heap_with_buffer. simpl. fold s1.
    erewrite copy_n_live by apply heap_with_buffer. simpl.
    erewrite (destroy_each_shared _ _ _ _ 0); [| apply heap_with_buffer | simpl; lia].
    simpl. rewrite !with_buffer_twice. fold w2.
    rewrite (dtor_last w2 l (mkShared s1 1) th' line);
      [| apply heap_with_buffer | done | done].
    simpl. rewrite Hs1. by rewrite decide_False.
  - apply pools_ok_with_pooled; [by apply pools_ok_emit | done |].
    unfold owners. change (heap (emit line w2)) with (heap w2).
    unfold w2. by rewrite heap_with_buffer.
  - change (trace (with_pooled th' l (emit line w2))) with (trace w2 ++ line).
    rewrite Htr, drop_app_length. by eapply dispatch_line_once.
  - rewrite pool_of_with_pooled. apply last_snoc.
Qed.

(** ** Files: rotation, dispatch and exit *)

#[local] Arguments LoggerStream.rotateFile : simpl never.
#[local] Arguments closeStream_dtor : simpl never.

Section file_facts.

Implicit Types (w : world) (f : FILE) (es : list event).

(** What [rotateFile] leaves behind, case by case. *)
Lemma rotateFile_cases w :
  LoggerStream.rotateFile w = Done tt
    (if Text.empty (logFileName w) then w
     else
       let path := Text.c_str (logFileName w) in
       match fopen_error w path with
       | Some e =>
           emit [EvWrite stderr
                   (Text.c_str ("cannot open log file '" +:+ logFileName w +:+ "'")
                    +:+ ": " +:+ Text.c_str e +:+ Libc.LF)]
             (set_errno e w)
       | None =>
           let f := fhandle (next_fd w) path in
           emit (EvOpen f ::
                 match outputStream w with
                 | Some previous =>
                     if decide (previous = stderr) then [] else [EvClose previous]
                 | None => []
                 end)
             (set_outputStream (Some f) (set_next_fd (S (next_fd w)) w))
       end).
Proof.
  unfold LoggerStream.rotateFile. run.
  destruct (Text.empty (logFileName w)); simpl; [done |].
  unfold Libc.fopen. run.
  destruct (fopen_error w (Text.c_str (logFileName w))) as [e|]; simpl.
  - by rewrite !str_app_nil_r.
  - destruct (outputStream w) as [[|fd p]|]; simpl.
    all: unfold modify, emit, set_outputStream, set_next_fd; simpl;
      by rewrite <- ?app_assoc.
Qed.


Lemma final_world_logHandler w L (s : string) line :
  dispatch_line w L s = Some line →
  trace <$> final_world (logHandler L s w)
    = Some (trace w ++ line ++ if decide (L = Fatal) then [EvAbort] else []).
Proof.
  intros H. rewrite (logHandler_line _ _ _ _ H).
  destruct (decide (L = Fatal)); simpl; [done |]. by rewrite app_nil_r.
Qed.

(** Changing the log file and then dispatching a line, with no handler
    installed.  An empty name opens nothing and the line goes to the
    target in force — clearing the name does not switch back to [stderr].
    A name that cannot be opened leaves one diagnostic on [stderr] and the
    line still goes to the target in force.  A name that can be opened
    makes the new handle the target, closes the old one unless it is
    [stderr], and the line goes to the new handle. *)
Theorem setLogFileName_then_dispatch (name : string) (L : Level) (s : string)
    (w : world) (f0 : FILE) :
  outputHandler w = None →
  outputStream w = Some f0 →
  let path := Text.c_str name in
  let f := fhandle (next_fd w) path in
  let '(rotation, target) :=
    if Text.empty name then ([], f0)
    else match fopen_error w path with
         | Some e =>
             ([EvWrite stderr
                 (Text.c_str ("cannot open log file '" +:+ name +:+ "'")
                  +:+ ": " +:+ Text.c_str e +:+ Libc.LF)], f0)
         | None =>
             (EvOpen f :: (if decide (f0 = stderr) then [] else [EvClose f0]), f)
         end in
  trace <$> final_world ((LoggerStream.setLogFileName name;; logHandler L s) w)
    = Some (trace w ++ rotation ++
            [EvWrite target (Text.c_str s +:+ Libc.LF); EvFlush target] ++
            if decide (L = Fatal) then [EvAbort] else []).
Proof.
  intros Hh Hf path f.
  unfold LoggerStream.setLogFileName. run.
  rewrite rotateFile_cases. simpl.
  destruct (Text.empty name); simpl.
  - erewrite final_world_logHandler
      by (unfold dispatch_line; simpl; by rewrite Hh, Hf).
    done.
  - fold path. destruct (fopen_error w path) as [e|]; simpl.
    + erewrite final_world_logHandler
        by (unfold dispatch_line; simpl; by rewrite Hh, Hf).
      simpl. by rewrite <- app_assoc.
    + erewrite final_world_logHandler
        by (unfold dispatch_line; simpl; by rewrite Hh).
      simpl. rewrite Hf. fold f. by rewrite <- app_assoc.
Qed.

(** On the sample file system: a path that opens, one that does not, and
    the empty name, each followed by a line. *)
Lemma setLogFileName_then_dispatch_witness :
  outputHandler sample_logging = None ∧
  outputStream sample_logging = Some (fhandle 3 "/var/log/app.log") ∧
  trace <$> final_world
    ((LoggerStream.setLogFileName "/var/log/new.log";; logHandler Info "line") sample_logging)
    = Some [EvOpen (fhandle 3 "/var/log/app.log");
            EvOpen (fhandle 4 "/var/log/new.log");
            EvClose (fhandle 3 "/var/log/app.log");
            EvWrite (fhandle 4 "/var/log/new.log") ("line" +:+ Libc.LF);
            EvFlush (fhandle 4 "/var/log/new.log")] ∧
  trace <$> final_world
    ((LoggerStream.setLogFileName "/nonexistent/app.log";; logHandler Info "line")
       sample_logging)
    = Some [EvOpen (fhandle 3 "/var/log/app.log");
            EvWrite stderr
              ("cannot open log file '/nonexistent/app.log': No such file or directory"
               +:+ Libc.LF);
            EvWrite (fhandle 3 "/var/log/app.log") ("line" +:+ Libc.LF);
            EvFlush (fhandle 3 "/var/log/app.log")] ∧
  trace <$> final_world
    ((LoggerStream.setLogFileName EmptyString;; logHandler Fatal "line") sample_logging)
    = Some [EvOpen (fhandle 3 "/var/log/app.log");
            EvWrite (fhandle 3 "/var/log/app.log") ("line" +:+ Libc.LF);
            EvFlush (fhandle 3 "/var/log/app.log");
            EvAbort].
Proof.
  split; [reflexivity |]. split; [reflexivity |]. split; [| split].
  - exact (setLogFileName_then_dispatch "/var/log/new.log" Info "line" sample_logging
             _ eq_refl eq_refl).
  - exact (setLogFileName_then_dispatch "/nonexistent/app.log" Info "line" sample_logging
             _ eq_refl eq_refl).
  - exact (setLogFileName_then_dispatch EmptyString Fatal "line" sample_logging
             _ eq_refl eq_refl).
Defined.

End file_facts.

(** ** Invariants, call by call *)

Section preserves_facts.

Context (I : world → Prop).

Lemma preserves_ret {A} (a : A) : preserves I (mret a).
Proof. by intros w Hw. Qed.

Lemma preserves_bind {A B} (m : M A) (k : A → M B) :
  preserves I m → (∀ a, preserves I (k a)) → preserves I (m ≫= k).
Proof.
  intros Hm Hk w Hw. specialize (Hm w Hw).
  unfold mbind, M_bind, bind. destruct (m w) as [a w'| |]; [| done | done].
  by apply Hk.
Qed.

Lemma preserves_get {A} (f : world → A) : preserves I (get f).
Proof. by intros w Hw. Qed.

Lemma preserves_modify (f : world → world) :
  (∀ w, I w → I (f w)) → preserves I (modify f).
Proof. intros Hf w Hw. by apply Hf. Qed.

Lemma preserves_undefined {A} : preserves I (@undefined A).
Proof. by intros w Hw. Qed.

End preserves_facts.

(** ** The files stay in order *)

Create HintDb keeps.

(** Break a call into its steps; the steps already shown to keep the
    invariant are in the hint database. *)
Ltac keeps :=
  repeat first
    [ apply preserves_ret
    | apply preserves_get
    | apply preserves_undefined
    | solve [auto with keeps]
    | apply preserves_bind; [| intros ?]
    | match goal with
      | |- preserves _ (match ?x with _ => _ end) => destruct x
      end ].

#[local] Arguments open_files : simpl never.

Section files_invariant.

Implicit Types (w : world) (f : FILE) (es : list event) (open : list FILE).

Lemma open_files_app es es' :
  open_files (es ++ es') = foldl track_file (open_files es) es'.
Proof. unfold open_files. apply foldl_app. Qed.

Lemma well_used_app open es es' :
  well_used open (es ++ es')
    = well_used open es && well_used (foldl track_file open es) es'.
Proof.
  revert open. induction es as [|e es IH]; intros open; simpl; [done |].
  by rewrite IH, andb_assoc.
Qed.

(** A step that touches neither the output target, nor the descriptors,
    nor the trace. *)
Lemma files_ok_frame w w' :
  outputStream w' = outputStream w → next_fd w' = next_fd w → trace w' = trace w →
  files_ok w → files_ok w'.
Proof.
  intros Ho Hn Ht (f & Hf & Hopen & Hfd & Hused). exists f.
  rewrite Ho, Hn, Ht. done.
Qed.

Lemma files_ok_init tm p fs : files_ok (world_init tm p fs).
Proof. exists stderr. by repeat split. Qed.

(** Events that open and close nothing and write, if at all, to [stderr]
    or to the output target. *)
Lemma files_ok_emit w es :
  files_ok w →
  Forall (λ e, match e with
               | EvOpen _ | EvClose _ => False
               | EvWrite f _ | EvFlush f => f = stderr ∨ outputStream w = Some f
               | _ => True
               end) es →
  files_ok (emit es w).
Proof.
  intros (f & Hf & Hopen & Hfd & Hused) Hes. exists f. simpl.
  split; [done |].
  assert (foldl track_file (open_files (trace w)) es = open_files (trace w)
          ∧ well_used (open_files (trace w)) es = true) as [Hsame Hes'].
  { induction Hes as [|e es He Hes IH]; [done |]. simpl.
    destruct e as [? ? ? | g ? | g | g | g |]; simpl; try done.
    - split; [apply IH |]. rewrite (proj2 IH), andb_true_r.
      apply bool_decide_eq_true. destruct He as [->|He]; [by left |].
      rewrite Hf in He. injection He as <-. rewrite Hopen.
      destruct (decide (f = stderr)); [by left | right; by apply list_elem_of_singleton].
    - split; [apply IH |]. rewrite (proj2 IH), andb_true_r.
      apply bool_decide_eq_true. destruct He as [->|He]; [by left |].
      rewrite Hf in He. injection He as <-. rewrite Hopen.
      destruct (decide (f = stderr)); [by left | right; by apply list_elem_of_singleton]. }
  rewrite open_files_app, well_used_app, Hsame.
  split; [done |]. split; [done |].
  rewrite Hused. simpl. unfold open_files in Hes'. by rewrite Hes'.
Qed.


(** A state change that touches neither the output target, nor the
    descriptors, nor the trace keeps the files in order. *)
Ltac files_frame :=
  apply preserves_modify; intros ? ?; eapply files_ok_frame; [| | | eassumption]; done.

Lemma keeps_deref l : preserves files_ok (LoggerStream.deref l).
Proof. unfold LoggerStream.deref. keeps. Qed.
Hint Resolve keeps_deref : keeps.

Lemma keeps_store l c : preserves files_ok (LoggerStream.store l c).
Proof. unfold LoggerStream.store. keeps; try files_frame. Qed.
Hint Resolve keeps_store : keeps.

Lemma keeps_update l g : preserves files_ok (LoggerStream.update l g).
Proof. unfold LoggerStream.update. keeps. Qed.
Hint Resolve keeps_update : keeps.

Lemma keeps_make_shared : preserves files_ok LoggerStream.make_shared.
Proof. unfold LoggerStream.make_shared. keeps. Qed.
Hint Resolve keeps_make_shared : keeps.

Lemma keeps_unique h : preserves files_ok (LoggerStream.unique h).
Proof. unfold LoggerStream.unique, LoggerStream.use_count_of. keeps. Qed.
Hint Resolve keeps_unique : keeps.

Lemma keeps_release h : preserves files_ok (LoggerStream.release h).
Proof. unfold LoggerStream.release. keeps; try files_frame. Qed.
Hint Resolve keeps_release : keeps.

Lemma keeps_getFromPool th : preserves files_ok (LoggerStream.getFromPool th).
Proof. unfold LoggerStream.getFromPool. keeps; try files_frame. Qed.
Hint Resolve keeps_getFromPool : keeps.

Lemma keeps_pushToPool th l : preserves files_ok (LoggerStream.pushToPool th l).
Proof. unfold LoggerStream.pushToPool. keeps; try files_frame. Qed.
Hint Resolve keeps_pushToPool : keeps.

Lemma keeps_copy h : preserves files_ok (LoggerStream.copy h).
Proof. unfold LoggerStream.copy. keeps. Qed.
Hint Resolve keeps_copy : keeps.

Lemma keeps_addLogMessage h (s : string) : preserves files_ok (LoggerStream.addLogMessage h s).
Proof. unfold LoggerStream.addLogMessage. keeps. Qed.
Hint Resolve keeps_addLogMessage : keeps.

Lemma keeps_run_call h k : preserves files_ok (run_call h k).
Proof.
  destruct k; simpl;
    unfold LoggerStream.space, LoggerStream.nospace, LoggerStream.quote,
      LoggerStream.noquote, LoggerStream.shl_cstr, LoggerStream.shl_string,
      LoggerStream.shl_char, LoggerStream.shl; keeps.
Qed.
Hint Resolve keeps_run_call : keeps.

Lemma keeps_ctor th L : preserves files_ok (LoggerStream.ctor th L).
Proof. unfold LoggerStream.ctor. keeps. Qed.
Hint Resolve keeps_ctor : keeps.

(** A dispatch writes to the output target, which is open. *)
Lemma keeps_logHandler L (s : string) : preserves files_ok (logHandler L s).
Proof.
  intros w Hw. pose proof Hw as (f & Hf & _).
  assert (∃ line, dispatch_line w L s = Some line ∧
            Forall (λ e, match e with
                         | EvOpen _ | EvClose _ => False
                         | EvWrite f _ | EvFlush f => f = stderr ∨ outputStream w = Some f
                         | _ => True
                         end) (line ++ [EvAbort])) as (line & Hline & Hall).
  { unfold dispatch_line. rewrite Hf.
    destruct (outputHandler w); eexists; (split; [reflexivity |]);
      repeat constructor; by right. }
  rewrite (logHandler_line _ _ _ _ Hline).
  destruct (decide (L = Fatal)).
  - by apply files_ok_emit.
  - apply files_ok_emit; [done |]. by apply Forall_app in Hall as [? _].
Qed.
Hint Resolve keeps_logHandler : keeps.

Lemma keeps_dtor th h : preserves files_ok (LoggerStream.dtor th h).
Proof. unfold LoggerStream.dtor. keeps. Qed.
Hint Resolve keeps_dtor : keeps.

(** Rotation: the new handle is the only one left open. *)
Lemma keeps_rotateFile : preserves files_ok LoggerStream.rotateFile.
Proof.
  intros w Hw. rewrite rotateFile_cases.
  destruct (Text.empty (logFileName w)); [done |]. simpl.
  destruct (fopen_error w (Text.c_str (logFileName w))) as [e|].
  - apply files_ok_emit.
    + eapply files_ok_frame; [| | | exact Hw]; done.
    + repeat constructor.
  - destruct Hw as (f & Hf & Hopen & Hfd & Hused).
    eexists. simpl. split; [reflexivity |].
    rewrite decide_False by done.
    rewrite open_files_app, well_used_app.
    change (foldl track_file [] (trace w)) with (open_files (trace w)).
    rewrite Hopen, Hused, Hf. simpl.
    split; [| split].
    + destruct (decide (f = stderr)) as [->|Hne]; simpl; [done |].
      destruct f as [|fd p]; [done |].
      rewrite filter_cons_False; [| intros H; apply H; reflexivity].
      rewrite filter_cons_True; [done |].
      intros [= Hfd' _]. specialize (Hfd fd p eq_refl). lia.
    + intros fd p [= <- _]. lia.
    + destruct (decide (f = stderr)) as [->|Hne]; simpl; [done |].
      rewrite andb_true_r. apply bool_decide_eq_true.
      by constructor.
Qed.
Hint Resolve keeps_rotateFile : keeps.

(** At exit the target goes back to [stderr] and nothing is left open. *)
Lemma keeps_closeStream : preserves files_ok closeStream_dtor.
Proof.
  intros w (f & Hf & Hopen & Hfd & Hused).
  unfold closeStream_dtor, Libc.exchange_outputStream. run. rewrite Hf.
  destruct (decide (Some f ≠ Some stderr)) as [Hne|Heq]; simpl.
  - exists stderr. simpl. split; [done |].
    assert (f ≠ stderr) as Hne' by congruence.
    rewrite decide_False in Hopen by done.
    rewrite open_files_app, well_used_app.
    change (foldl track_file [] (trace w)) with (open_files (trace w)).
    rewrite Hopen, Hused. simpl.
    rewrite filter_cons_False; [| intros H; apply H; reflexivity].
    split; [done |]. split; [done |].
    rewrite andb_true_r. apply bool_decide_eq_true. by constructor.
  - apply dec_stable in Heq. injection Heq as ->.
    exists stderr. by rewrite decide_True in Hopen.
Qed.
Hint Resolve keeps_closeStream : keeps.

Lemma keeps_run_action a : preserves files_ok (run_action a).
Proof.
  destruct a; simpl;
    unfold LoggerStream.setOutputHandler, LoggerStream.setSeverityLevel_name,
      LoggerStream.setSeverityLevel, LoggerStream.setApplicationPrefix,
      LoggerStream.setMessagePrefix, LoggerStream.setLogFileName;
    keeps; try files_frame.
Qed.

Lemma keeps_run_actions acts : preserves files_ok (run_actions acts).
Proof.
  induction acts as [|a acts IH]; simpl; [apply preserves_ret |].
  apply preserves_bind; [apply keeps_run_action | by intros _].
Qed.

End files_invariant.

Lemma emit_nil (w : world) : emit [] w = w.
Proof. unfold emit. rewrite app_nil_r. by destruct w. Qed.

(** Whatever a program does with the logger — configuration, rotation,
    streams, the exit handler, in any order and with any outcome of
    [fopen] — the files stay in order: at most one log file is open, it is
    the output target, every write and flush went to [stderr] or to a
    handle open at that time, and no handle was closed twice. *)
Theorem files_stay_in_order (acts : list action) (w w' : world) :
  files_ok w →
  final_world (run_actions acts w) = Some w' →
  files_ok w' ∧
  well_used [] (trace w') = true ∧
  length (open_files (trace w')) ≤ 1 ∧
  ∀ f, f ∈ open_files (trace w') → outputStream w' = Some f.
Proof.
  intros Hw Hrun.
  assert (Hw' : files_ok w').
  { pose proof (keeps_run_actions acts w Hw) as H.
    destruct (run_actions acts w) as [[] w1|w1|]; simpl in Hrun; [| | done];
      by injection Hrun as <-. }
  split; [done |]. destruct Hw' as (f & Hf & Hopen & _ & Hused).
  split; [done |]. rewrite Hopen.
  destruct (decide (f = stderr)); simpl.
  - split; [lia |]. by intros g Hg%elem_of_nil.
  - split; [lia |]. by intros g ->%list_elem_of_singleton.
Qed.

(** A program that rotates while a stream is alive, fails a rotation and
    runs the exit handler. *)
Lemma files_stay_in_order_witness :
  let acts :=
    [ DoSetLogFileName "/var/log/app.log"; DoNew 0 Info; DoCall (Some 0) (PutCStr "a");
      DoRotateFile; DoDelete 0 (Some 0); DoSetLogFileName "/nonexistent/app.log";
      DoNew 0 Error; DoDelete 0 (Some 0); DoCloseStream ] in
  files_ok sample_world ∧
  ∃ w', final_world (run_actions acts sample_world) = Some w' ∧
    files_ok w' ∧
    trace w' =
      [ EvOpen (fhandle 3 "/var/log/app.log");
        EvOpen (fhandle 4 "/var/log/app.log");
        EvClose (fhandle 3 "/var/log/app.log");
        EvWrite (fhandle 4 "/var/log/app.log")
          ("03.08.2017 12:44:15.737 I [26629] :  a" +:+ Libc.LF);
        EvFlush (fhandle 4 "/var/log/app.log");
        EvWrite stderr
          ("cannot open log file '/nonexistent/app.log': No such file or directory"
           +:+ Libc.LF);
        EvWrite (fhandle 4 "/var/log/app.log")
          ("03.08.2017 12:44:15.737 E [26629] : " +:+ Libc.LF);
        EvFlush (fhandle 4 "/var/log/app.log");
        EvClose (fhandle 4 "/var/log/app.log") ].
Proof.
  intros acts.
  assert (Hinit : files_ok sample_world) by apply files_ok_init.
  split; [exact Hinit |].
  eexists. split; [vm_compute; reflexivity |].
  split; [| vm_compute; reflexivity].
  eapply (files_stay_in_order acts sample_world); [exact Hinit |].
  vm_compute. reflexivity.
Defined.

Lemma closeStream_on_stderr (w : world) :
  outputStream w = Some stderr → closeStream_dtor w = Done tt w.
Proof.
  intros H. unfold closeStream_dtor, Libc.exchange_outputStream. run. rewrite H.
  simpl. destruct w; simpl in *. by subst.
Qed.

(** When the process exits, the output target goes back to [stderr] and
    the log file, if one is open, is closed; running the exit handler
    again closes nothing, and a line dispatched afterwards (no handler
    installed) is written to [stderr]. *)
Theorem closeStream_at_exit (w : world) (f : FILE) (L : Level) (s : string) :
  outputStream w = Some f →
  let closed := if decide (f = stderr) then [] else [EvClose f] in
  let w' := emit closed (set_outputStream (Some stderr) w) in
  closeStream_dtor w = Done tt w' ∧
  closeStream_dtor w' = Done tt w' ∧
  (outputHandler w = None →
   trace <$> final_world ((closeStream_dtor;; logHandler L s) w)
     = Some (trace w ++ closed ++
             [EvWrite stderr (Text.c_str s +:+ Libc.LF); EvFlush stderr] ++
             if decide (L = Fatal) then [EvAbort] else [])).
Proof.
  intros Hf closed w'.
  assert (H1 : closeStream_dtor w = Done tt w').
  { unfold closeStream_dtor, Libc.exchange_outputStream. run. rewrite Hf.
    unfold w', closed.
    destruct f as [|fd p]; simpl; [by rewrite emit_nil | done]. }
  assert (H2 : closeStream_dtor w' = Done tt w')
    by (apply closeStream_on_stderr; by destruct f).
  split; [done |]. split; [done |].
  intros Hh. unfold mbind, M_bind, bind. rewrite H1.
  erewrite final_world_logHandler by (unfold dispatch_line; simpl; by rewrite Hh).
  simpl. by rewrite <- app_assoc.
Qed.

Lemma closeStream_at_exit_witness :
  outputStream sample_logging = Some (fhandle 3 "/var/log/app.log") ∧
  closeStream_dtor sample_logging
    = Done tt (emit [EvClose (fhandle 3 "/var/log/app.log")]
                 (set_outputStream (Some stderr) sample_logging)) ∧
  trace <$> final_world ((closeStream_dtor;; logHandler Info "bye") sample_logging)
    = Some [ EvOpen (fhandle 3 "/var/log/app.log");
             EvClose (fhandle 3 "/var/log/app.log");
             EvWrite stderr ("bye" +:+ Libc.LF); EvFlush stderr ].
Proof.
  destruct (closeStream_at_exit sample_logging (fhandle 3 "/var/log/app.log") Info "bye"
              eq_refl) as (H1 & _ & H3).
  split; [reflexivity |]. split; [exact H1 | exact (H3 eq_refl)].
Defined.

(** ** Whole logging statements *)

#[local] Arguments message : simpl never.

Section message_facts.

Implicit Types (w : world) (l : loc) (c : shared) (s : Stream.t) (th : tid).

Lemma acquired_globals w th :
  outputHandler (acquired w th).2 = outputHandler w ∧
  outputStream (acquired w th).2 = outputStream w ∧
  severityLevel (acquired w th).2 = severityLevel w ∧
  trace (acquired w th).2 = trace w ∧
  heap (acquired w th).2 = heap w.
Proof. unfold acquired. by destruct (last (pool_of w th)). Qed.

Lemma dispatch_line_frame w w' L (s : string) :
  outputHandler w' = outputHandler w → outputStream w' = outputStream w →
  dispatch_line w' L s = dispatch_line w L s.
Proof. intros Hh Hf. unfold dispatch_line. by rewrite Hh, Hf. Qed.

(** An active statement: the buffer ends up with header and tokens, the
    line is dispatched, and the buffer goes back to the pool unless the
    process was aborted. *)
Lemma message_active w th L ks line :
  pool_ok w th = true →
  Level_ge L (severityLevel w) = true →
  let l := (acquired w th).1 in
  let s1 := foldl (flip apply_call) (seeded w L) ks in
  let w2 := with_buffer l s1 1 (acquired w th).2 in
  dispatch_line w L (Stream.str s1) = Some line →
  message th L ks w =
    if decide (L = Fatal) then Aborted (emit (line ++ [EvAbort]) w2)
    else Done tt (with_pooled th l (emit line w2)).
Proof.
  intros Hok Hge l s1 w2 Hline.
  unfold message, mbind, M_bind, bind.
  rewrite ctor_active by done. fold l (seeded w L).
  erewrite run_chain_live by apply heap_with_buffer. simpl.
  rewrite with_buffer_twice. fold s1 w2.
  destruct (acquired_globals w th) as (Hh & Hf & _).
  rewrite (dtor_last w2 l (mkShared s1 1) th line);
    [| apply heap_with_buffer | done |].
  - simpl. unfold s1. by rewrite chain_level.
  - simpl. unfold s1 at 1. rewrite chain_level. simpl.
    by rewrite (dispatch_line_frame w).
Qed.

Lemma message_filtered w th L ks :
  Level_ge L (severityLevel w) = false → message th L ks w = Done tt w.
Proof.
  intros Hge. unfold message, mbind, M_bind, bind.
  by rewrite ctor_inactive, run_chain_disabled.
Qed.

Lemma nul_free_decimal z : Text.nul_free (Layout.decimal z) = true.
Proof. rewrite <- fmt_d_decimal. apply nul_free_fmt_d. Qed.

Lemma nul_free_chain_text sp qt ks :
  forallb call_nul_free ks = true → Text.nul_free (chain_text sp qt ks) = true.
Proof.
  revert sp qt. induction ks as [|k ks IH]; intros sp qt; simpl; [done |].
  intros [Hk Hks]%andb_true_iff.
  destruct k; simpl; auto;
    rewrite !nul_free_app, (IH _ _ Hks), ?nul_free_c_str, ?nul_free_decimal;
    simpl in Hk; rewrite ?Hk.
  all: destruct sp, qt; simpl; rewrite ?Hk; done.
Qed.

Lemma trace_message_active w th L ks line :
  pool_ok w th = true →
  Level_ge L (severityLevel w) = true →
  dispatch_line w L (Stream.str (foldl (flip apply_call) (seeded w L) ks)) = Some line →
  trace <$> final_world (message th L ks w)
    = Some (trace w ++ line ++ if decide (L = Fatal) then [EvAbort] else []).
Proof.
  intros Hok Hge Hline. rewrite (message_active _ _ _ _ line) by done.
  destruct (acquired_globals w th) as (_ & _ & _ & Ht & _).
  destruct (decide (L = Fatal)); simpl; rewrite Ht; [done |]. by rewrite app_nil_r.
Qed.

(** The line of a logging statement.  A statement below the threshold
    leaves no event.  Any other hands over exactly one line, made of the
    header and the tokens as decorated by the flags, read as a C string:
    to the handler if one is installed, otherwise to the output target
    followed by a newline and a flush; a [Fatal] statement then aborts.
    When no token contains a NUL character the line is the whole text;
    otherwise it stops before the first NUL. *)
Theorem message_line (th : tid) (L : Level) (ks : list call) (w : world) (f : FILE) :
  pool_ok w th = true →
  outputStream w = Some f →
  let text :=
    LoggerStream.header (applicationPrefix w) (now w) L (pid w) (messagePrefix w)
    +:+ chain_text true false ks in
  let line :=
    match outputHandler w with
    | Some h => [EvHandler h L (Text.c_str text)]
    | None => [EvWrite f (Text.c_str text +:+ Libc.LF); EvFlush f]
    end in
  trace <$> final_world (message th L ks w)
    = Some (trace w ++
            if Level_ge L (severityLevel w)
            then line ++ (if decide (L = Fatal) then [EvAbort] else [])
            else []) ∧
  (forallb call_nul_free ks = true → Text.c_str text = text).
Proof.
  intros Hok Hf text line. split.
  - destruct (Level_ge L (severityLevel w)) eqn:Hge.
    + apply trace_message_active; [done | done |].
      rewrite chain_str. unfold dispatch_line, line, text. simpl. rewrite Hf.
      by destruct (outputHandler w).
    + rewrite message_filtered by done. simpl. by rewrite app_nil_r.
  - intros Hks. apply c_str_nul_free. unfold text.
    by rewrite nul_free_app, header_nul_free, nul_free_chain_text.
Qed.

(** The first usage line of [logger.h] written to a log file, and a
    statement whose second token has a NUL in it: the line stops there. *)
Lemma message_line_witness :
  pool_ok sample_logging 0 = true ∧
  outputStream sample_logging = Some (fhandle 3 "/var/log/app.log") ∧
  trace <$> final_world
    (message 0 Info [PutCStr "string"; PutCStr "to"; PutCStr "log"; PutInt 10] sample_logging)
    = Some [ EvOpen (fhandle 3 "/var/log/app.log");
             EvWrite (fhandle 3 "/var/log/app.log")
               ("03.08.2017 12:44:15.737 I [26629] :  string to log 10" +:+ Libc.LF);
             EvFlush (fhandle 3 "/var/log/app.log") ] ∧
  trace <$> final_world
    (message 0 Info [PutCStr "a"; PutString (String "b" (String "000" "c")); PutCStr "d"]
       sample_logging)
    = Some [ EvOpen (fhandle 3 "/var/log/app.log");
             EvWrite (fhandle 3 "/var/log/app.log")
               ("03.08.2017 12:44:15.737 I [26629] :  a b" +:+ Libc.LF);
             EvFlush (fhandle 3 "/var/log/app.log") ].
Proof.
  split; [reflexivity |]. split; [reflexivity |]. split.
  - exact (proj1 (message_line 0 Info [PutCStr "string"; PutCStr "to"; PutCStr "log"; PutInt 10]
                    sample_logging _ eq_refl eq_refl)).
  - exact (proj1 (message_line 0 Info
                    [PutCStr "a"; PutString (String "b" (String "000" "c")); PutCStr "d"]
                    sample_logging _ eq_refl eq_refl)).
Defined.

End message_facts.

Section in_flight_facts.

Implicit Types (w : world) (l : loc) (c : shared) (s : Stream.t) (th : tid).

(** The rest of a statement, from a buffer with a single owner. *)
Lemma trace_chain_dtor w l s th ks line :
  heap w !! l = Some (mkShared s 1) →
  dispatch_line w (Stream.level s) (Stream.str (foldl (flip apply_call) s ks)) = Some line →
  trace <$> final_world ((h ← run_chain (Some l) ks; LoggerStream.dtor th h) w)
    = Some (trace w ++ line ++ if decide (Stream.level s = Fatal) then [EvAbort] else []).
Proof.
  intros H Hline. unfold mbind, M_bind, bind.
  rewrite (run_chain_live _ _ _ _ H). simpl.
  rewrite (dtor_last _ l (mkShared (foldl (flip apply_call) s ks) 1) th line);
    [| apply heap_with_buffer | done
     | simpl; rewrite chain_level; by rewrite (dispatch_line_frame w)].
  simpl. rewrite chain_level.
  destruct (decide (Stream.level s = Fatal)); simpl; [done |]. by rewrite app_nil_r.
Qed.

Lemma dtor_disabled w th : LoggerStream.dtor th None w = Done tt w.
Proof. done. Qed.

(** What a stream is made of is fixed when it is created; where its line
    goes is decided when it is destroyed.  Changing the threshold or the
    prefixes while a stream is alive changes neither whether it is
    dispatched nor its header, and a stream filtered at creation stays
    silent; a handler installed while the stream is alive receives it. *)
Theorem in_flight_configuration (th : tid) (L : Level) (ks : list call) (w : world)
    (f : FILE) (T' : Level) (app' msg' : string) (g : OutputHandler) :
  pool_ok w th = true →
  outputStream w = Some f →
  trace <$> final_world
    ((h ← LoggerStream.ctor th L;
      LoggerStream.setSeverityLevel T';;
      LoggerStream.setApplicationPrefix app';;
      LoggerStream.setMessagePrefix msg';;
      h ← run_chain h ks;
      LoggerStream.dtor th h) w)
    = trace <$> final_world (message th L ks w) ∧
  trace <$> final_world
    ((h ← LoggerStream.ctor th L;
      h ← run_chain h ks;
      LoggerStream.setOutputHandler (Some g);;
      LoggerStream.dtor th h) w)
    = Some (trace w ++
            if Level_ge L (severityLevel w)
            then EvHandler g L
                   (Text.c_str
                      (LoggerStream.header (applicationPrefix w) (now w) L (pid w)
                         (messagePrefix w) +:+ chain_text true false ks))
                 :: (if decide (L = Fatal) then [EvAbort] else [])
            else []).
Proof.
  intros Hok Hf.
  destruct (acquired_globals w th) as (Hh' & Hf' & _ & Ht' & _).
  destruct (Level_ge L (severityLevel w)) eqn:Hge.
  - (* active *)
    assert (∃ line,
      dispatch_line w L (Stream.str (foldl (flip apply_call) (seeded w L) ks)) = Some line)
      as [line Hline].
    { unfold dispatch_line. rewrite Hf. destruct (outputHandler w); eauto. }
    rewrite (trace_message_active _ _ _ _ line) by done.
    split.
    + unfold mbind at 1 2 3 4, M_bind, bind.
      rewrite ctor_active by done. fold (seeded w L).
      unfold LoggerStream.setSeverityLevel, LoggerStream.setApplicationPrefix,
        LoggerStream.setMessagePrefix, modify.
      erewrite (trace_chain_dtor _ _ (seeded w L) _ _ line);
        [| apply heap_with_buffer |].
      * simpl. by rewrite Ht'.
      * simpl. rewrite <- Hline. apply dispatch_line_frame; simpl; by rewrite ?Hh', ?Hf'.
    + unfold mbind, M_bind, bind.
      rewrite ctor_active by done. fold (seeded w L).
      erewrite run_chain_live by apply heap_with_buffer. simpl.
      unfold LoggerStream.setOutputHandler, modify.
      rewrite (dtor_last _ (acquired w th).1
                 (mkShared (foldl (flip apply_call) (seeded w L) ks) 1) th
                 [EvHandler g L
                    (Text.c_str (Stream.str (foldl (flip apply_call) (seeded w L) ks)))]);
        [| apply heap_with_buffer | done
         | unfold dispatch_line; simpl; by rewrite chain_level ].
      simpl. rewrite chain_level. simpl.
      destruct (decide (L = Fatal)); simpl; by rewrite Ht', chain_str.
  - (* filtered *)
    rewrite message_filtered by done.
    unfold mbind, M_bind, bind. rewrite ctor_inactive by done.
    unfold LoggerStream.setSeverityLevel, LoggerStream.setApplicationPrefix,
      LoggerStream.setMessagePrefix, LoggerStream.setOutputHandler, modify.
    rewrite !run_chain_disabled. simpl. by rewrite app_nil_r.
Qed.

(** A [Warning] whose threshold is raised to [Fatal] and whose prefixes
    are changed before its tokens are appended. *)
Lemma in_flight_configuration_witness :
  pool_ok sample_logging 0 = true ∧
  outputStream sample_logging = Some (fhandle 3 "/var/log/app.log") ∧
  trace <$> final_world
    ((h ← logWarning 0;
      LoggerStream.setSeverityLevel Fatal;;
      LoggerStream.setApplicationPrefix "app";;
      LoggerStream.setMessagePrefix "PREFIX";;
      h ← run_chain h abc;
      LoggerStream.dtor 0 h) sample_logging)
    = Some [ EvOpen (fhandle 3 "/var/log/app.log");
             EvWrite (fhandle 3 "/var/log/app.log")
               ("03.08.2017 12:44:15.737 W [26629] :  a b c" +:+ Libc.LF);
             EvFlush (fhandle 3 "/var/log/app.log") ] ∧
  trace <$> final_world
    ((h ← logWarning 0;
      h ← run_chain h abc;
      LoggerStream.setOutputHandler (Some 7);;
      LoggerStream.dtor 0 h) sample_logging)
    = Some [ EvOpen (fhandle 3 "/var/log/app.log");
             EvHandler 7 Warning "03.08.2017 12:44:15.737 W [26629] :  a b c" ].
Proof.
  destruct (in_flight_configuration 0 Warning abc sample_logging _ Fatal "app" "PREFIX" 7
              eq_refl eq_refl) as [H1 H2].
  split; [reflexivity |]. split; [reflexivity |]. split.
  - etransitivity; [exact H1 |]. vm_compute. reflexivity.
  - exact H2.
Defined.

End in_flight_facts.

(** ** Reuse of buffers *)

#[local] Arguments messages : simpl nomatch.

Section reuse_facts.

Implicit Types (w : world) (l : loc) (c : shared) (s : Stream.t) (th : tid).

Lemma dispatches_app es es' : dispatches (es ++ es') = dispatches es + dispatches es'.
Proof. unfold dispatches. by rewrite filter_app, length_app. Qed.

(** Taking the back of the pool and putting it back restores the pool. *)
Lemma pool_of_acquired_snoc w th :
  pool_of (acquired w th).2 th ++ [(acquired w th).1]
    = if decide (pool_of w th = []) then [fresh (dom (heap w))] else pool_of w th.
Proof.
  unfold acquired. destruct (last (pool_of w th)) as [l|] eqn:Hlast; simpl.
  - apply last_Some in Hlast as [p Hp]. rewrite pool_of_set_pool, Hp, removelast_last.
    rewrite decide_False; [done |]. by destruct p.
  - apply last_None in Hlast. rewrite Hlast. by rewrite decide_True.
Qed.

Lemma acquired_in_heap w th :
  pool_ok w th = true → pool_of w th ≠ [] → (acquired w th).1 ∈ dom (heap w).
Proof.
  intros Hok Hne. unfold acquired.
  destruct (last (pool_of w th)) as [l|] eqn:Hlast; simpl.
  - destruct (pool_ok_last _ _ _ Hok Hlast) as [s Hs]. by apply elem_of_dom.
  - by apply last_None in Hlast.
Qed.

(** One statement below [Fatal]: it returns, and the state it leaves. *)
Lemma message_step w th L ks :
  pool_ok w th = true →
  (outputHandler w = None → outputStream w ≠ None) →
  L ≠ Fatal →
  ∃ w' es,
    message th L ks w = Done tt w' ∧
    trace w' = trace w ++ es ∧
    dispatches es = (if Level_ge L (severityLevel w) then 1 else 0) ∧
    outputHandler w' = outputHandler w ∧ outputStream w' = outputStream w ∧
    severityLevel w' = severityLevel w ∧
    pool_ok w' th = true ∧
    (Level_ge L (severityLevel w) = false → w' = w) ∧
    (Level_ge L (severityLevel w) = true →
     pool_of w' th
       = (if decide (pool_of w th = []) then [fresh (dom (heap w))] else pool_of w th) ∧
     dom (heap w')
       = (if decide (pool_of w th = []) then {[fresh (dom (heap w))]} ∪ dom (heap w)
          else dom (heap w))).
Proof.
  intros Hok Hsink HL.
  destruct (Level_ge L (severityLevel w)) eqn:Hge.
  - set (s1 := foldl (flip apply_call) (seeded w L) ks).
    assert (∃ line, dispatch_line w L (Stream.str s1) = Some line) as [line Hline].
    { unfold dispatch_line. destruct (outputHandler w); [by eauto |].
      destruct (outputStream w); [by eauto |]. by destruct Hsink. }
    destruct (acquired_globals w th) as (Hh & Hf & Hs & Ht & Hheap).
    eexists _, line. split.
    { rewrite (message_active _ _ _ _ line) by done. by rewrite decide_False. }
    fold s1. simpl.
    split; [by rewrite Ht |]. split; [by eapply dispatch_line_once |].
    split; [done |]. split; [done |]. split; [done |].
    assert (Hpool : pool_of
              (with_pooled th (acquired w th).1
                 (emit line (with_buffer (acquired w th).1 s1 1 (acquired w th).2))) th
            = if decide (pool_of w th = []) then [fresh (dom (heap w))] else pool_of w th).
    { rewrite pool_of_with_pooled. apply pool_of_acquired_snoc. }
    split; [| split; [done |]]. 2: split; [exact Hpool |].
    + apply pool_ok_iff. intros l Hl. rewrite Hpool in Hl.
      unfold owners. simpl. rewrite Hheap.
      destruct (decide ((acquired w th).1 = l)) as [<-|Hne];
        [by rewrite lookup_insert_eq |].
      rewrite lookup_insert_ne by done.
      destruct (decide (pool_of w th = [])) as [Hnil|Hnn].
      * apply list_elem_of_singleton in Hl. subst l. exfalso. apply Hne.
        unfold acquired. by rewrite Hnil.
      * by apply (pool_ok_iff w th).
    + simpl. rewrite Hheap, dom_insert_L.
      destruct (decide (pool_of w th = [])) as [Hnil|Hnn].
      * unfold acquired. by rewrite Hnil.
      * apply subseteq_union_1_L, singleton_subseteq_l.
        by apply acquired_in_heap.
  - exists w, []. rewrite message_filtered by done.
    rewrite app_nil_r. by repeat split.
Qed.


(** Statements logged one after the other on one thread, none of them
    [Fatal], all return; each one above the threshold is dispatched once,
    and together they allocate at most one buffer: once the pool of the
    thread holds a buffer, every statement takes it and puts it back, so
    that the heap has the same buffers and the pool the same content
    afterwards. *)
Theorem pool_reuse (th : tid) (ms : list (Level * list call)) (w : world) :
  pool_ok w th = true →
  (outputHandler w = None → outputStream w ≠ None) →
  Forall (λ m, m.1 ≠ Fatal) ms →
  ∃ w' es,
    messages th ms w = Done tt w' ∧
    trace w' = trace w ++ es ∧
    dispatches es = length (filter (λ m, Level_ge m.1 (severityLevel w) = true) ms) ∧
    pool_ok w' th = true ∧
    dom (heap w') ⊆ {[fresh (dom (heap w))]} ∪ dom (heap w) ∧
    (pool_of w th ≠ [] → dom (heap w') = dom (heap w) ∧ pool_of w' th = pool_of w th).
Proof.
  intros Hok Hsink Hms. revert w Hok Hsink.
  induction Hms as [|[L ks] ms HL Hms IH]; intros w Hok Hsink.
  - exists w, []. rewrite app_nil_r.
    split; [done |]. split; [done |]. split; [done |]. split; [done |].
    split; [set_solver | done].
  - simpl in HL.
    destruct (message_step w th L ks Hok Hsink HL)
      as (w1 & es1 & Hrun1 & Ht1 & Hd1 & Hh1 & Hf1 & Hs1 & Hok1 & Hfilt & Hact).
    destruct (IH w1 Hok1) as (w' & es & Hrun & Ht & Hd & Hok' & Hdom & Hwarm).
    { by rewrite Hh1, Hf1. }
    exists w', (es1 ++ es). split.
    { simpl. unfold mbind, M_bind, bind. simpl. by rewrite Hrun1. }
    split; [by rewrite Ht, Ht1, app_assoc |].
    split.
    { rewrite dispatches_app, Hd1, Hd, Hs1. rewrite filter_cons. simpl.
      by destruct (Level_ge L (severityLevel w)). }
    split; [done |].
    destruct (Level_ge L (severityLevel w)) eqn:Hge.
    + destruct (Hact eq_refl) as [Hp1 Hd1'].
      assert (Hnn1 : pool_of w1 th ≠ []).
      { rewrite Hp1. by destruct (decide (pool_of w th = [])). }
      destruct (Hwarm Hnn1) as [Hdom' Hpool']. rewrite Hdom', Hpool', Hd1', Hp1.
      split; [destruct (decide (pool_of w th = [])); [done | apply union_subseteq_r] |].
      intros Hnn. by rewrite !decide_False.
    + rewrite (Hfilt eq_refl) in *. by split.
Qed.

(** Three statements on a thread whose pool is empty, the second one
    filtered: one buffer is allocated and then reused. *)
Lemma pool_reuse_witness :
  let w := set_severityLevel Info sample_world in
  let ms := [(Info, abc); (Debug, abc); (Error, [PutInt 3])] in
  pool_ok w 0 = true ∧
  (outputHandler w = None → outputStream w ≠ None) ∧
  Forall (λ m, m.1 ≠ Fatal) ms ∧
  ∃ w' es,
    messages 0 ms w = Done tt w' ∧
    trace w' = trace w ++ es ∧
    dispatches es = 2 ∧
    dom (heap w') ⊆ {[0]} ∪ dom (heap w) ∧
    pool_of w' 0 = [0].
Proof.
  intros w ms.
  assert (H1 : pool_ok w 0 = true) by reflexivity.
  assert (H2 : outputHandler w = None → outputStream w ≠ None) by done.
  assert (H3 : Forall (λ m : Level * list call, m.1 ≠ Fatal) ms)
    by (repeat constructor; done).
  split; [exact H1 |]. split; [exact H2 |]. split; [exact H3 |].
  destruct (pool_reuse 0 ms w H1 H2 H3) as (w' & es & Hrun & Ht & Hd & _ & Hdom & _).
  exists w', es. split; [exact Hrun |]. split; [exact Ht |].
  split; [exact Hd |]. split; [exact Hdom |].
  assert (Hw' : messages 0 ms w = Done tt w') by exact Hrun.
  vm_compute in Hw'. injection Hw' as <-. reflexivity.
Defined.

End reuse_facts.

(** ** The pool is a stack; streams alive together have their own buffers *)

Section pool_facts.

Implicit Types (w : world) (l : loc) (c : shared) (s : Stream.t) (th : tid).

Lemma pushToPool_spec w th l : LoggerStream.pushToPool th l w = Done tt (with_pooled th l w).
Proof. done. Qed.

Lemma getFromPool_snoc w th p l :
  pool_of w th = p ++ [l] →
  LoggerStream.getFromPool th w = Done l (set_pool (<[th := p]> (pool w)) w).
Proof.
  intros Hp. unfold LoggerStream.getFromPool. run.
  by rewrite Hp, last_snoc, removelast_last.
Qed.

(** Buffers returned to the pool of a thread come back in the opposite
    order, most recent first, without any allocation; the pools of the
    other threads are not looked at. *)
Theorem pool_is_lifo (th : tid) (l1 l2 : loc) (w : world) :
  ∃ w1 w2,
    (LoggerStream.pushToPool th l1;; LoggerStream.pushToPool th l2;;
     LoggerStream.getFromPool th) w = Done l2 w1 ∧
    LoggerStream.getFromPool th w1 = Done l1 w2 ∧
    heap w2 = heap w ∧ trace w2 = trace w ∧
    ∀ th', pool_of w2 th' = pool_of w th'.
Proof.
  unfold mbind, M_bind, bind. rewrite !pushToPool_spec.
  erewrite (getFromPool_snoc _ th (pool_of w th ++ [l1]) l2)
    by (by rewrite !pool_of_with_pooled).
  eexists _, _. split; [reflexivity |].
  erewrite (getFromPool_snoc _ th (pool_of w th) l1) by apply pool_of_set_pool.
  split; [reflexivity |]. split; [done |]. split; [done |].
  intros th'. unfold pool_of. simpl.
  destruct (decide (th = th')) as [<-|Hne].
  - by rewrite lookup_insert_eq.
  - by rewrite !lookup_insert_ne.
Qed.

Lemma pool_of_acquired_subset w th th' l :
  l ∈ pool_of (acquired w th).2 th' → l ∈ pool_of w th'.
Proof.
  unfold acquired. destruct (last (pool_of w th)) as [l0|] eqn:Hlast; simpl; [| done].
  apply last_Some in Hlast as [p Hp]. rewrite Hp, removelast_last.
  intros H%elem_of_pool_of_set_pool.
  destruct (decide (th = th')) as [<-|Hne]; [| done].
  rewrite Hp. apply elem_of_app. by left.
Qed.

(** Two streams alive at the same time, on the same thread or not, never
    share a buffer: the second stream gets a buffer of its own, the first
    keeps its header, and the pools stay in order. *)
Theorem nested_streams_are_separate (th1 th2 : tid) (L1 L2 : Level) (w : world) :
  pools_ok w →
  Level_ge L1 (severityLevel w) = true →
  Level_ge L2 (severityLevel w) = true →
  ∃ l1 l2 w',
    (h1 ← LoggerStream.ctor th1 L1; h2 ← LoggerStream.ctor th2 L2; mret (h1, h2)) w
      = Done (Some l1, Some l2) w' ∧
    l1 ≠ l2 ∧
    buffer w' l1 = Some (seeded w L1) ∧
    buffer w' l2 = Some (seeded w L2) ∧
    owners w' l1 = Some 1 ∧ owners w' l2 = Some 1 ∧
    unpooled w' l1 ∧ unpooled w' l2 ∧
    pools_ok w'.
Proof.
  intros Hw Hge1 Hge2.
  set (l1 := (acquired w th1).1).
  set (w1 := with_buffer l1 (seeded w L1) 1 (acquired w th1).2).
  destruct (pools_ok_acquired w th1 (seeded w L1) Hw) as [Hw1 Hun1]. fold l1 w1 in Hw1, Hun1.
  set (l2 := (acquired w1 th2).1).
  set (w2 := with_buffer l2 (seeded w1 L2) 1 (acquired w1 th2).2).
  destruct (pools_ok_acquired w1 th2 (seeded w1 L2) Hw1) as [Hw2 Hun2]. fold l2 w2 in Hw2, Hun2.
  assert (Hglob : seeded w1 L2 = seeded w L2).
  { unfold seeded, w1, acquired. by destruct (last (pool_of w th1)). }
  assert (Hne : l1 ≠ l2).
  { unfold l2, acquired.
    destruct (last (pool_of w1 th2)) as [l|] eqn:Hlast; cbn [fst].
    - apply last_Some in Hlast as [p Hp]. intros <-.
      apply (Hun1 th2). rewrite Hp. apply elem_of_app. right. by constructor.
    - intros Heq. pose proof (is_fresh (dom (heap w1))) as Hfresh.
      rewrite <- Heq in Hfresh. apply Hfresh, elem_of_dom.
      unfold w1. rewrite heap_with_buffer. by eexists. }
  exists l1, l2, w2. split; [| split; [done |]].
  { unfold mbind, M_bind, bind, mret, M_ret, ret.
    destruct Hw as (Hok & _). destruct Hw1 as (Hok1 & _).
    rewrite ctor_active by done. fold l1 (seeded w L1) w1.
    assert (Hge2' : Level_ge L2 (severityLevel w1) = true).
    { unfold w1. simpl. by rewrite (proj1 (proj2 (proj2 (acquired_globals w th1)))). }
    rewrite ctor_active by done. by fold (seeded w1 L2) l2 w2. }
  assert (Hheap2 : heap (acquired w1 th2).2 = heap w1) by apply acquired_globals.
  split.
  { unfold buffer, w2. rewrite heap_with_buffer_ne by done.
    rewrite Hheap2. unfold w1. by rewrite heap_with_buffer. }
  split; [unfold w2; by rewrite buffer_with_buffer, Hglob |].
  split.
  { unfold owners, w2. rewrite heap_with_buffer_ne by done.
    rewrite Hheap2. unfold w1. by rewrite heap_with_buffer. }
  split; [unfold owners, w2; by rewrite heap_with_buffer |].
  split; [| done].
  intros th Hl. unfold w2 in Hl. rewrite pool_of_with_buffer in Hl.
  apply pool_of_acquired_subset in Hl. by apply (Hun1 th).
Qed.

Lemma pools_ok_sample_recycled : pools_ok sample_recycled.
Proof.
  set (text := ("03.08.2017 12:44:15.737 I [26629] : " +:+ Text.DQUOTE +:+ "old"
                +:+ Text.DQUOTE)%string).
  set (w1 := with_buffer 0 (Stream.mk text Info false true) 1 sample_world).
  change sample_recycled
    with (with_pooled 0 0 (emit [EvWrite stderr (text +:+ Libc.LF); EvFlush stderr] w1)).
  assert (Hun : unpooled w1 0) by (intros th H; by apply elem_of_nil in H).
  apply pools_ok_with_pooled; [| done | done].
  apply pools_ok_emit, pools_ok_with_buffer; [apply pools_ok_init | done].
Qed.

(** On a thread whose pool holds one buffer: the outer stream takes it,
    the inner one gets a new buffer. *)
Lemma nested_streams_are_separate_witness :
  pools_ok sample_recycled ∧
  Level_ge Info (severityLevel sample_recycled) = true ∧
  Level_ge Error (severityLevel sample_recycled) = true ∧
  ∃ w', (h1 ← logInfo 0; h2 ← logError 0; mret (h1, h2)) sample_recycled
          = Done (Some 0, Some 1) w' ∧
    buffer w' 0 = Some (Stream.mk "03.08.2017 12:44:15.737 I [26629] : " Info true false) ∧
    buffer w' 1 = Some (Stream.mk "03.08.2017 12:44:15.737 E [26629] : " Error true false) ∧
    pools_ok w'.
Proof.
  assert (H0 : pools_ok sample_recycled) by exact pools_ok_sample_recycled.
  split; [exact H0 |]. split; [reflexivity |]. split; [reflexivity |].
  destruct (nested_streams_are_separate 0 0 Info Error sample_recycled H0 eq_refl eq_refl)
    as (l1 & l2 & w' & Hrun & _ & Hb1 & Hb2 & _ & _ & _ & _ & Hw').
  assert (Hl : l1 = 0 ∧ l2 = 1).
  { assert (Hrun' := Hrun). vm_compute in Hrun'. by injection Hrun' as <- <- _. }
  destruct Hl as [-> ->].
  exists w'. split; [exact Hrun |]. split; [exact Hb1 |]. split; [exact Hb2 | exact Hw'].
Defined.

(** The life of one message, with the invariant of the pools. *)
Lemma pools_ok_life_witness :
  pools_ok sample_recycled ∧
  Level_ge Warning (severityLevel sample_recycled) = true ∧
  ∃ w',
    (h ← LoggerStream.ctor 0 Warning;
     h ← run_chain h abc;
     copy_n h 2;;
     destroy_each h [1; 2];;
     LoggerStream.dtor 3 h) sample_recycled = Done tt w' ∧
    pools_ok w' ∧
    dispatches (drop (length (trace sample_recycled)) (trace w')) = 1 ∧
    last (pool_of w' 3) = Some 0.
Proof.
  assert (H0 : pools_ok sample_recycled) by exact pools_ok_sample_recycled.
  split; [exact H0 |]. split; [reflexivity |].
  exact (pools_ok_life sample_recycled 0 Warning abc [1; 2] 3 H0 eq_refl
           ltac:(done) ltac:(done)).
Defined.

End pool_facts.

(** ** Thresholds set by name; chains through copies *)

Section more_facts.

Implicit Types (w : world) (l : loc) (c : shared) (s : Stream.t) (th : tid).

Lemma setSeverityLevel_name_cases (name : string) w :
  ∃ T, LoggerStream.setSeverityLevel_name name w = Done tt (set_severityLevel T w) ∧
    T ≠ Fatal.
Proof.
  unfold LoggerStream.setSeverityLevel_name.
  repeat match goal with
  | |- context [String.eqb name ?s] => destruct (String.eqb name s)
  end; eexists; (split; [reflexivity | done]).
Qed.

(** No name given to [setSeverityLevel(name)] silences errors: whatever
    the string, streams of level [Error] and [Fatal] created afterwards
    are active.  A [Fatal] stream is active under every threshold the
    enumeration has. *)
Theorem errors_are_never_filtered_by_name (name : string) (T : Level) (th : tid) (w : world) :
  pool_ok w th = true →
  (∃ l w', (LoggerStream.setSeverityLevel_name name;; logError th) w = Done (Some l) w') ∧
  (∃ l w', (LoggerStream.setSeverityLevel_name name;; logFatal th) w = Done (Some l) w') ∧
  (∃ l w', (LoggerStream.setSeverityLevel T;; logFatal th) w = Done (Some l) w').
Proof.
  intros Hok.
  destruct (setSeverityLevel_name_cases name w) as (T0 & Hset & HT0).
  unfold mbind, M_bind, bind, logError, logFatal. rewrite Hset.
  unfold LoggerStream.setSeverityLevel, modify.
  split; [| split].
  - rewrite ctor_active; [by eauto | done | by destruct T0].
  - rewrite ctor_active; [by eauto | done | by destruct T0].
  - rewrite ctor_active; [by eauto | done | by destruct T].
Qed.

Lemma errors_are_never_filtered_by_name_witness :
  pool_ok sample_recycled 0 = true ∧
  (∃ l w', (LoggerStream.setSeverityLevel_name "fatal";; logError 0) sample_recycled
             = Done (Some l) w') ∧
  (∃ l w', (LoggerStream.setSeverityLevel Fatal;; logFatal 0) sample_recycled
             = Done (Some l) w').
Proof.
  destruct (errors_are_never_filtered_by_name "fatal" Fatal 0 sample_recycled eq_refl)
    as (H1 & _ & H3).
  split; [reflexivity |]. split; [exact H1 | exact H3].
Defined.

Lemma run_chain_app (h : LoggerStream.t) (ks1 ks2 : list call) w :
  run_chain h (ks1 ++ ks2) w = (h' ← run_chain h ks1; run_chain h' ks2) w.
Proof.
  revert h w. induction ks1 as [|k ks1 IH]; intros h w; [done |].
  simpl. unfold mbind, M_bind, bind in *.
  destruct (run_call h k w) as [h' w'| |]; [| done | done]. apply IH.
Qed.

Lemma chain_text_app sp qt ks1 ks2 :
  chain_text sp qt (ks1 ++ ks2)
    = chain_text sp qt ks1 +:+
      chain_text (chain_flags sp qt ks1).1 (chain_flags sp qt ks1).2 ks2.
Proof.
  revert sp qt. induction ks1 as [|k ks1 IH]; intros sp qt; simpl; [done |].
  destruct k; rewrite ?IH; try done; by rewrite !str_app_assoc.
Qed.

(** A copy shares text and flags with the stream it was copied from:
    calls made through the one and then through the other act as one
    chain on the one buffer, so that a flag toggled through one handle
    decorates the tokens appended through the other.  Neither the copy nor
    the calls dispatch anything. *)
Theorem copies_share_the_chain (l : loc) (c : shared) (ks1 ks2 : list call) (w : world) :
  heap w !! l = Some c →
  let sp := Stream.space (obj c) in
  let qt := Stream.quote (obj c) in
  ∃ s',
    (h2 ← LoggerStream.copy (Some l); h1 ← run_chain (Some l) ks1; run_chain h2 ks2) w
      = Done (Some l) (with_buffer l s' (S (use_count c)) w) ∧
    run_chain (Some l) (ks1 ++ ks2) w
      = Done (Some l) (with_buffer l s' (use_count c) w) ∧
    Stream.str s'
      = Stream.str (obj c) +:+ chain_text sp qt ks1 +:+
        chain_text (chain_flags sp qt ks1).1 (chain_flags sp qt ks1).2 ks2 ∧
    trace (with_buffer l s' (S (use_count c)) w) = trace w.
Proof.
  intros H sp qt. exists (foldl (flip apply_call) (obj c) (ks1 ++ ks2)).
  split; [| split; [by apply run_chain_live | split; [| done]]].
  - unfold mbind, M_bind, bind. rewrite (copy_live _ _ _ H).
    erewrite run_chain_live by apply heap_with_buffer. simpl.
    erewrite run_chain_live by apply heap_with_buffer. simpl.
    by rewrite !with_buffer_twice, foldl_app.
  - by rewrite chain_str, chain_text_app.
Qed.

(** A stream copied after [nospace()]: the tokens appended through the
    copy follow without a space. *)
Lemma copies_share_the_chain_witness :
  heap sample_recycled !! 0
    = Some (mkShared (Stream.mk ("03.08.2017 12:44:15.737 I [26629] : " +:+ Text.DQUOTE
                                 +:+ "old" +:+ Text.DQUOTE) Info false true) 1) ∧
  ∃ s',
    (h2 ← LoggerStream.copy (Some 0);
     h1 ← run_chain (Some 0) [NoQuote; PutCStr "a"; Space];
     run_chain h2 [PutCStr "b"]) sample_recycled
      = Done (Some 0) (with_buffer 0 s' 2 sample_recycled) ∧
    Stream.str s'
      = ("03.08.2017 12:44:15.737 I [26629] : " +:+ Text.DQUOTE +:+ "old" +:+ Text.DQUOTE
         +:+ "a b")%string.
Proof.
  split; [reflexivity |].
  destruct (copies_share_the_chain 0 _ [NoQuote; PutCStr "a"; Space] [PutCStr "b"]
              sample_recycled eq_refl) as (s' & Hrun & _ & Hstr & _).
  exists s'. split; [exact Hrun | exact Hstr].
Defined.

End more_facts.

(** ** Configured prefixes in the line; fatal statements *)

Section line_facts.

Implicit Types (w : world) (l : loc) (c : shared) (s : Stream.t) (th : tid).

(** The line of a statement after both prefixes were configured, written
    to the output target: the application prefix and the space that
    [setApplicationPrefix] adds, the time stamp, the level, the process
    id, the message prefix and a colon, then the tokens.  The clock is in
    the POSIX ranges with a year that 1900 can be added to as an [int], no
    text has a NUL in it and the header fits its 126 characters. *)
Theorem configured_line (app msg : string) (th : tid) (L : Level) (ks : list call)
    (w : world) (f : FILE) :
  pool_ok w th = true →
  outputHandler w = None →
  outputStream w = Some f →
  Level_ge L (severityLevel w) = true →
  tm_valid (now w) = true →
  app ≠ EmptyString →
  Text.nul_free app = true →
  Text.nul_free msg = true →
  forallb call_nul_free ks = true →
  String.length (Layout.header (app +:+ " ") (now w) L (pid w) msg) ≤ 126 →
  trace <$> final_world
    ((LoggerStream.setApplicationPrefix app;;
      LoggerStream.setMessagePrefix msg;;
      message th L ks) w)
    = Some (trace w ++
            [EvWrite f (Layout.header (app +:+ " ") (now w) L (pid w) msg
                        +:+ chain_text true false ks +:+ Libc.LF);
             EvFlush f] ++
            if decide (L = Fatal) then [EvAbort] else []).
Proof.
  intros Hok Hh Hf Hge Htm Happ Hnapp Hnmsg Hks Hlen.
  assert (He : Text.empty app = false) by by destruct app.
  unfold mbind, M_bind, bind, LoggerStream.setApplicationPrefix,
    LoggerStream.setMessagePrefix, modify.
  rewrite He. cbn [negb].
  set (w0 := set_messagePrefix msg (set_applicationPrefix (app +:+ " ") w)).
  set (hdr := Layout.header (app +:+ " ") (now w) L (pid w) msg) in *.
  assert (Hhdr : LoggerStream.header (applicationPrefix w0) (now w0) L (pid w0)
                   (messagePrefix w0) = hdr).
  { rewrite header_truncated, render_header_format by done.
    change (applicationPrefix w0) with (app +:+ " ").
    change (messagePrefix w0) with msg.
    change (now w0) with (now w). change (pid w0) with (pid w).
    rewrite !c_str_nul_free; [by apply truncate_all | done |].
    by rewrite nul_free_app, Hnapp. }
  assert (Htext : Text.c_str (hdr +:+ chain_text true false ks)
                  = hdr +:+ chain_text true false ks).
  { apply c_str_nul_free. rewrite nul_free_app, nul_free_chain_text by done.
    rewrite <- Hhdr. by rewrite header_nul_free. }
  erewrite (trace_message_active w0 th L ks); [reflexivity | done | done |].
  rewrite chain_str. unfold dispatch_line.
  change (outputHandler w0) with (outputHandler w).
  change (outputStream w0) with (outputStream w). rewrite Hh, Hf.
  unfold seeded. cbn [Stream.str Stream.space Stream.quote].
  by rewrite Hhdr, Htext, str_app_assoc.
Qed.

(** The example of [logger.h] with a message prefix, and an application
    prefix before the time stamp. *)
Lemma configured_line_witness :
  pool_ok sample_logging 0 = true ∧
  trace <$> final_world
    ((LoggerStream.setApplicationPrefix "app";;
      LoggerStream.setMessagePrefix "PREFIX";;
      message 0 Info [PutCStr "output"]) sample_logging)
    = Some [ EvOpen (fhandle 3 "/var/log/app.log");
             EvWrite (fhandle 3 "/var/log/app.log")
               ("app 03.08.2017 12:44:15.737 I [26629] PREFIX:  output" +:+ Libc.LF);
             EvFlush (fhandle 3 "/var/log/app.log") ].
Proof.
  split; [reflexivity |].
  refine (configured_line "app" "PREFIX" 0 Info [PutCStr "output"] sample_logging _
            eq_refl eq_refl eq_refl eq_refl eq_refl _ eq_refl eq_refl eq_refl _).
  - done.
  - vm_compute. lia.
Defined.

(** A [Fatal] statement never returns, whatever the threshold: its line
    is dispatched once and the process is aborted; the buffer is not
    returned to the pool. *)
Theorem fatal_statement_aborts (th : tid) (ks : list call) (w : world) :
  pool_ok w th = true →
  (outputHandler w = None → outputStream w ≠ None) →
  ∃ w' line,
    message th Fatal ks w = Aborted w' ∧
    trace w' = trace w ++ line ++ [EvAbort] ∧
    dispatches line = 1 ∧
    pool_of w' th = removelast (pool_of w th).
Proof.
  intros Hok Hsink.
  assert (Hge : Level_ge Fatal (severityLevel w) = true) by by destruct (severityLevel w).
  assert (∃ line, dispatch_line w Fatal
            (Stream.str (foldl (flip apply_call) (seeded w Fatal) ks)) = Some line)
    as [line Hline].
  { unfold dispatch_line. destruct (outputHandler w); [by eauto |].
    destruct (outputStream w); [by eauto |]. by destruct Hsink. }
  eexists _, line. rewrite (message_active _ _ _ _ line) by done.
  rewrite decide_True by done.
  destruct (acquired_globals w th) as (_ & _ & _ & Ht & _).
  split; [reflexivity |].
  split; [simpl; by rewrite Ht |]. split; [by eapply dispatch_line_once |].
  change (pool_of (acquired w th).2 th = removelast (pool_of w th)).
  unfold acquired. destruct (last (pool_of w th)) as [l|] eqn:Hlast; cbn [snd].
  - apply pool_of_set_pool.
  - apply last_None in Hlast. by rewrite Hlast.
Qed.

Lemma fatal_statement_aborts_witness :
  let w := set_severityLevel Fatal sample_recycled in
  pool_ok w 0 = true ∧
  (outputHandler w = None → outputStream w ≠ None) ∧
  ∃ w' line,
    message 0 Fatal abc w = Aborted w' ∧
    trace w' = trace w ++ line ++ [EvAbort] ∧
    dispatches line = 1 ∧
    pool_of w' 0 = [].
Proof.
  intros w.
  assert (H1 : pool_ok w 0 = true) by reflexivity.
  assert (H2 : outputHandler w = None → outputStream w ≠ None) by done.
  split; [exact H1 |]. split; [exact H2 |].
  exact (fatal_statement_aborts 0 abc w H1 H2).
Defined.

End line_facts.

(** ** Copy assignment *)

Section assign_facts.

Implicit Types (w : world) (c : shared).

Lemma release_last w (l : loc) c :
  heap w !! l = Some c → use_count c = 1 →
  LoggerStream.release (Some l) w = Done tt (set_heap (delete l (heap w)) w).
Proof.
  intros H Hn. unfold LoggerStream.release. run.
  by rewrite (deref_live _ _ _ H), Hn.
Qed.

Lemma release_shared w (l : loc) c n :
  heap w !! l = Some c → use_count c = S (S n) →
  LoggerStream.release (Some l) w = Done tt (with_buffer l (obj c) (S n) w).
Proof.
  intros H Hn. unfold LoggerStream.release. run.
  by rewrite (deref_live _ _ _ H), Hn.
Qed.

(** The copy assignment [a = b] between streams with different buffers
    gives [b]'s buffer one more owner and takes one owner from [a]'s,
    without any event and without touching a pool.  When [a] was the last
    handle of its buffer the buffer is freed: its text is never
    dispatched and it is returned to no pool.  Assignment between handles
    of the same buffer leaves the state as it is. *)
Theorem assignment_drops_the_message (a b : loc) (ca cb : shared) (w : world) :
  heap w !! a = Some ca →
  heap w !! b = Some cb →
  a ≠ b →
  (use_count ca = 1 →
   ∃ w', LoggerStream.assign (Some a) (Some b) w = Done (Some b) w' ∧
     heap w' !! a = None ∧
     heap w' !! b = Some (mkShared (obj cb) (S (use_count cb))) ∧
     trace w' = trace w ∧ pool w' = pool w) ∧
  (∀ n, use_count ca = S (S n) →
   ∃ w', LoggerStream.assign (Some a) (Some b) w = Done (Some b) w' ∧
     heap w' !! a = Some (mkShared (obj ca) (S n)) ∧
     heap w' !! b = Some (mkShared (obj cb) (S (use_count cb))) ∧
     trace w' = trace w ∧ pool w' = pool w) ∧
  (0 < use_count ca → LoggerStream.assign (Some a) (Some a) w = Done (Some a) w).
Proof.
  intros Ha Hb Hne.
  set (w1 := with_buffer b (obj cb) (S (use_count cb)) w).
  assert (Ha1 : heap w1 !! a = Some ca).
  { unfold w1. by rewrite heap_with_buffer_ne. }
  split; [| split].
  - intros Hn. eexists. split.
    { unfold LoggerStream.assign, mbind, M_bind, bind, mret, M_ret, ret.
      rewrite (copy_live _ _ _ Hb). fold w1.
      by rewrite (release_last _ _ _ Ha1 Hn). }
    simpl. split; [apply lookup_delete_eq |].
    split; [| done]. rewrite lookup_delete_ne by done. apply lookup_insert_eq.
  - intros n Hn. eexists. split.
    { unfold LoggerStream.assign, mbind, M_bind, bind, mret, M_ret, ret.
      rewrite (copy_live _ _ _ Hb). fold w1.
      by rewrite (release_shared _ _ _ _ Ha1 Hn). }
    split; [apply heap_with_buffer |].
    split; [| done]. rewrite heap_with_buffer_ne by done. apply heap_with_buffer.
  - intros Hpos. unfold LoggerStream.assign, mbind, M_bind, bind, mret, M_ret, ret.
    rewrite (copy_live _ _ _ Ha).
    destruct (use_count ca) as [|n] eqn:Hn; [lia |].
    erewrite (release_shared _ _ _ n) by (try apply heap_with_buffer; done).
    simpl. rewrite with_buffer_twice. rewrite <- Hn. by rewrite with_buffer_id.
Qed.

(** [a = tmp] with [a] holding the tokens "a", "b", "c" and [tmp] a new
    [Error] stream: buffer 0 is freed with nothing dispatched; when both
    handles are destroyed afterwards, the one line is that of [tmp]. *)
Lemma assignment_drops_the_message_witness :
  heap sample_two_streams !! 0
    = Some (mkShared (Stream.mk "03.08.2017 12:44:15.737 I [26629] :  a b c" Info true false)
              1) ∧
  heap sample_two_streams !! 1
    = Some (mkShared (Stream.mk "03.08.2017 12:44:15.737 E [26629] : " Error true false) 1) ∧
  ∃ w',
    LoggerStream.assign (Some 0) (Some 1) sample_two_streams = Done (Some 1) w' ∧
    heap w' !! 0 = None ∧
    owners w' 1 = Some 2 ∧
    trace w' = [] ∧
    trace <$> final_world ((LoggerStream.dtor 0 (Some 1);; LoggerStream.dtor 0 (Some 1)) w')
      = Some [EvWrite stderr ("03.08.2017 12:44:15.737 E [26629] : " +:+ Libc.LF);
              EvFlush stderr].
Proof.
  split; [reflexivity |]. split; [reflexivity |].
  destruct (assignment_drops_the_message 0 1 _ _ sample_two_streams eq_refl eq_refl
              ltac:(done)) as (Hlast & _ & _).
  destruct (Hlast eq_refl) as (w' & Hrun & Hgone & Hown & Htrace & _).
  assert (Hw' : LoggerStream.assign (Some 0) (Some 1) sample_two_streams = Done (Some 1) w')
    by exact Hrun.
  vm_compute in Hw'. injection Hw' as <-.
  eexists. split; [exact Hrun |]. split; [exact Hgone |].
  split; [unfold owners; by rewrite Hown |]. split; [exact Htrace |].
  vm_compute. reflexivity.
Defined.

End assign_facts.
